(** * 2dShapes: the 2D transformation engine ([matrix_math]) and the render
      loop ([main.js]), embedded in Rocq.

    JavaScript numbers are IEEE 754 binary64 values: they are modelled by
    Rocq's primitive floats, whose operations round exactly as the
    JavaScript ones do.  Arrays, points and shapes are JavaScript objects:
    they live in a store indexed by references, so that "a new object is
    returned" and "the argument is not mutated" are statements about the
    store and not artefacts of a value-passing model. *)

From Stdlib Require Import PrimFloat FloatOps FloatAxioms SpecFloat.
From stdpp Require Import gmap list.

Set Warnings "-inexact-float".

(** ** Numbers *)

(** [NaN] is what arithmetic makes of [undefined]. *)
Definition NaN : float := Eval cbv in (0 / 0)%float.

(** A JavaScript argument that is either missing ([undefined]) or a
    number. *)
Inductive value : Type :=
  | undefined
  | Num (n : float).

(** [ToNumber] of the language specification, on the two kinds of value
    above. *)
Definition ToNumber (v : value) : float :=
  match v with
  | undefined => NaN
  | Num n => n
  end.

(** The strict equality [===] of two numbers: IEEE equality, for which
    [-0] equals [0] and [NaN] differs from itself. *)
Definition strict_eq (a b : float) : bool := PrimFloat.eqb a b.

(** ** Objects *)

(** References to objects. *)
Abbreviation loc := nat.

(** Modelled from the spec: the class [Point] of [objects/Point], a pair of
    coordinates [x], [y].  The homogeneous coordinate, the third argument
    of [new Point(x, y, 1)], is implicit. *)
Module Point.
Record t : Type := mk { x : float; y : float }.
End Point.

(** Modelled from the spec: the class [Shape] of [objects/Shape], with the
    fields the transformation engine and the render loop use, and the three
    kinds of shape.  [M] is a reference to the array holding the shape's
    matrix.  The colour object and the vertex buffer are not kept in the
    store: [color] and [buffer] identify them. *)
Module Shape.
Inductive SHAPE_TYPE : Type := LINE | TRIANGLE | CIRCLE.

Record t : Type := mk {
  tx : float; ty : float;
  sx : float; sy : float;
  rotAngle : float;
  rotAroundCenter : bool;
  M : loc;
  type : SHAPE_TYPE;
  filled : bool;
  color : nat;
  buffer : nat
}.

Definition set_rotAroundCenter (b : bool) (s : t) : t :=
  mk (tx s) (ty s) (sx s) (sy s) (rotAngle s) b (M s) (type s) (filled s)
     (color s) (buffer s).

Definition set_M (m : loc) (s : t) : t :=
  mk (tx s) (ty s) (sx s) (sy s) (rotAngle s) (rotAroundCenter s) m (type s)
     (filled s) (color s) (buffer s).

Definition SHAPE_TYPE_eqb (a b : SHAPE_TYPE) : bool :=
  match a, b with
  | LINE, LINE | TRIANGLE, TRIANGLE | CIRCLE, CIRCLE => true
  | _, _ => false
  end.
End Shape.

Inductive object : Type :=
  | Arr (elems : list float)
  | Pt (p : Point.t)
  | Shp (s : Shape.t).

(** The store: a finite map from references to objects. *)
Abbreviation heap := (gmap nat object).

(** A reference no object of the store has: one past the largest. *)
Definition fresh_loc (h : heap) : loc := S (max_list (map_to_list h).*1).

(** [new], and array literals: the object is stored under a reference no
    object has yet. *)
Definition alloc (o : object) (h : heap) : loc * heap :=
  let l := fresh_loc h in (l, <[l := o]> h).

(** The element [i] of an array, read as a number.  A missing element is
    [undefined], which arithmetic turns into [NaN]. *)
Definition elem (a : list float) (i : nat) : float := default NaN (a !! i).

(** [A[i]] read as a number. *)
Definition rd (h : heap) (A : loc) (i : nat) : float :=
  match h !! A with
  | Some (Arr a) => elem a i
  | _ => NaN
  end.

(** [a[i] = v] on the elements of an array: in range the element is
    replaced; past the end the array grows, and the holes left read back as
    [undefined]. *)
Definition array_store (a : list float) (i : nat) (v : float) : list float :=
  if decide (i < length a) then <[i := v]> a
  else a ++ replicate (i - length a) NaN ++ [v].

(** [A[i] = v], for [A] an array. *)
Definition wr (A : loc) (i : nat) (v : float) (h : heap) : heap :=
  match h !! A with
  | Some (Arr a) => <[A := Arr (array_store a i v)]> h
  | _ => h
  end.

(** The statement [A[i] = e]: the expression [e] is evaluated in the
    current store, then its value is stored. *)
Definition assign (A : loc) (i : nat) (e : heap -> float) (h : heap) : heap :=
  wr A i (e h) h.

(** [P.x] and [P.y] read as numbers. *)
Definition rd_x (h : heap) (P : loc) : float :=
  match h !! P with
  | Some (Pt p) => Point.x p
  | _ => NaN
  end.

Definition rd_y (h : heap) (P : loc) : float :=
  match h !! P with
  | Some (Pt p) => Point.y p
  | _ => NaN
  end.

(** [P.x = v] and [P.y = v]. *)
Definition wr_x (P : loc) (v : float) (h : heap) : heap :=
  match h !! P with
  | Some (Pt p) => <[P := Pt (Point.mk v (Point.y p))]> h
  | _ => h
  end.

Definition wr_y (P : loc) (v : float) (h : heap) : heap :=
  match h !! P with
  | Some (Pt p) => <[P := Pt (Point.mk (Point.x p) v)]> h
  | _ => h
  end.

(** The statements [P.x = e] and [P.y = e]. *)
Definition assign_x (P : loc) (e : heap -> float) (h : heap) : heap :=
  wr_x P (e h) h.

Definition assign_y (P : loc) (e : heap -> float) (h : heap) : heap :=
  wr_y P (e h) h.

(** ** Computations that may throw *)

Inductive error : Type :=
  | RangeError   (* the call stack is exhausted *)
  | TypeError.   (* a property of something that is not an object *)

Inductive result (A : Type) : Type :=
  | Ok (a : A)
  | Throw (e : error).
Arguments Ok {A} a.
Arguments Throw {A} e.

(** A computation transforms the store and returns or throws; what it
    wrote before throwing stays written. *)
Definition js (A : Type) : Type := heap -> result A * heap.

Definition ret {A} (a : A) : js A := fun h => (Ok a, h).

Definition throw {A} (e : error) : js A := fun h => (Throw e, h).

Definition bind {A B} (c : js A) (k : A -> js B) : js B :=
  fun h =>
    match c h with
    | (Ok a, h') => k a h'
    | (Throw e, h') => (Throw e, h')
    end.

(** A computation that cannot throw. *)
Definition lift {A} (f : heap -> A * heap) : js A :=
  fun h => let (a, h') := f h in (Ok a, h').

(** A statement that only writes to the store. *)
Definition exec (f : heap -> heap) : js unit := fun h => (Ok tt, f h).

Declare Scope js_scope.
Delimit Scope js_scope with js.
Notation "x <- c ;; k" := (bind c (fun x => k))
  (at level 100, c at next level, right associativity) : js_scope.
Notation "c ;; k" := (bind c (fun _ => k))
  (at level 100, right associativity) : js_scope.

(** [shape.f] for a field [f].  Reading a property of something that is
    not a shape throws. *)
Definition getField {A} (shape : loc) (f : Shape.t -> A) : js A :=
  fun h =>
    match h !! shape with
    | Some (Shp s) => (Ok (f s), h)
    | _ => (Throw TypeError, h)
    end.

(** [shape.f = v], as an update [upd] of the shape's fields. *)
Definition setField (shape : loc) (upd : Shape.t -> Shape.t) : js unit :=
  fun h =>
    match h !! shape with
    | Some (Shp s) => (Ok tt, <[shape := Shp (upd s)]> h)
    | _ => (Throw TypeError, h)
    end.

(** ** [matrix_math]: the functions that do not recurse *)

(** [makeIdentityMatrix()] *)
Definition makeIdentityMatrix (h : heap) : loc * heap :=
  let (myMatrix, h) := alloc (Arr [1; 0; 0;
                                   0; 1; 0;
                                   0; 0; 1]%float) h in
  (myMatrix, h).

(** [multiplyMatrices(M1, M2)]: nine assignments into a new array. *)
Definition multiplyMatrices (M1 M2 : loc) (h : heap) : loc * heap :=
  let (M3, h) := alloc (Arr [0; 0; 0;
                             0; 0; 0;
                             0; 0; 0]%float) h in
  let h := assign M3 0 (fun h => rd h M1 0 * rd h M2 0 + rd h M1 3 * rd h M2 1 + rd h M1 6 * rd h M2 2)%float h in
  let h := assign M3 1 (fun h => rd h M1 1 * rd h M2 0 + rd h M1 4 * rd h M2 1 + rd h M1 7 * rd h M2 2)%float h in
  let h := assign M3 2 (fun h => rd h M1 2 * rd h M2 0 + rd h M1 5 * rd h M2 1 + rd h M1 8 * rd h M2 2)%float h in

  let h := assign M3 3 (fun h => rd h M1 0 * rd h M2 3 + rd h M1 3 * rd h M2 4 + rd h M1 6 * rd h M2 5)%float h in
  let h := assign M3 4 (fun h => rd h M1 1 * rd h M2 3 + rd h M1 4 * rd h M2 4 + rd h M1 7 * rd h M2 5)%float h in
  let h := assign M3 5 (fun h => rd h M1 2 * rd h M2 3 + rd h M1 5 * rd h M2 4 + rd h M1 8 * rd h M2 5)%float h in

  let h := assign M3 6 (fun h => rd h M1 0 * rd h M2 6 + rd h M1 3 * rd h M2 7 + rd h M1 6 * rd h M2 8)%float h in
  let h := assign M3 7 (fun h => rd h M1 1 * rd h M2 6 + rd h M1 4 * rd h M2 7 + rd h M1 7 * rd h M2 8)%float h in
  let h := assign M3 8 (fun h => rd h M1 2 * rd h M2 6 + rd h M1 5 * rd h M2 7 + rd h M1 8 * rd h M2 8)%float h in
  (M3, h).

(** [transformPoint(P, M)]: a new point, then its two coordinates are
    assigned. *)
Definition transformPoint (P M : loc) (h : heap) : loc * heap :=
  let (myPoint, h) := alloc (Pt (Point.mk (rd_x h P) (rd_y h P))) h in
  let h := assign_x myPoint (fun h => rd h M 6 + rd_x h P)%float h in
  let h := assign_y myPoint (fun h => rd h M 7 + rd_y h P)%float h in
  (myPoint, h).

(** [orthoMatrix(b, t, l, r, n = -1.0, f = 1.0)]: a default applies when
    the argument is [undefined]. *)
Definition orthoMatrix (b t l r : float) (n f : value) (h : heap) : loc * heap :=
  let n := match n with undefined => (-1.0)%float | Num n => n end in
  let f := match f with undefined => 1.0%float | Num f => f end in
  let A1 := (2 / (r - l))%float in
  let B1 := (2 / (t - b))%float in
  let C1 := (-2 / (f - n))%float in
  let A2 := (- (r + l) / (r - l))%float in
  let B2 := (- (t + b) / (t - b))%float in
  let C2 := (- (f + n) / (f - n))%float in
  let (M, h) := alloc (Arr [A1; 0; 0; 0;
                            0; B1; 0; 0;
                            0; 0; C1; 0;
                            A2; B2; C2; 1]%float) h in
  (M, h).

(** ** [matrix_math]: the builders and the rebuild *)

Section Builders.

(** [Math.cos] and [Math.sin]: the language leaves their results to the
    implementation, so they are parameters.  Their argument is in
    radians. *)
Variables Math_cos Math_sin : float -> float.

(** The four assignments of [makeRotationMatrix], which follow its first
    statement. *)
Definition makeRotationMatrix_assignments (thetaInDegrees : value)
    (myMatrix : loc) : js unit :=
  (exec (assign myMatrix 0 (fun _ => Math_cos (ToNumber thetaInDegrees))) ;;
   exec (assign myMatrix 1 (fun _ => Math_sin (ToNumber thetaInDegrees))) ;;
   exec (assign myMatrix 3 (fun _ => - (Math_sin (ToNumber thetaInDegrees)))%float) ;;
   exec (assign myMatrix 4 (fun _ => Math_cos (ToNumber thetaInDegrees))))%js.

(** [makeRotationMatrix(thetaInDegrees)].  Its first statement is
    [var myMatrix = makeRotationMatrix()]: a call of the function itself,
    with no argument.  [depth] is the number of nested activations the
    call stack still has room for; an activation that finds no room
    throws [RangeError]. *)
Fixpoint makeRotationMatrix (depth : nat) (thetaInDegrees : value) : js loc :=
  match depth with
  | O => throw RangeError
  | S depth =>
      (myMatrix <- makeRotationMatrix depth undefined ;;
       makeRotationMatrix_assignments thetaInDegrees myMatrix ;;
       ret myMatrix)%js
  end.

(** [makeTranslationMatrix(tx, ty)] *)
Definition makeTranslationMatrix (depth : nat) (tx ty : float) : js loc :=
  (myMatrix <- makeRotationMatrix depth undefined ;;
   exec (assign myMatrix 6 (fun _ => tx)) ;;
   exec (assign myMatrix 7 (fun _ => ty)) ;;
   ret myMatrix)%js.

(** [makeScaleMatrix(sx, sy)] *)
Definition makeScaleMatrix (depth : nat) (sx sy : float) : js loc :=
  (myMatrix <- makeRotationMatrix depth undefined ;;
   exec (assign myMatrix 0 (fun _ => sx)) ;;
   exec (assign myMatrix 4 (fun _ => sy)) ;;
   ret myMatrix)%js.

(** The last statements of [rebuildTransformationMatrix]: the three
    products and the assignment to [shape.M]. *)
Definition rebuildTransformationMatrix_compose
    (shape tranMatrix scaleMatrix rotMatrix : loc) : js unit :=
  (M <- getField shape Shape.M ;;
   newRTM <- lift (multiplyMatrices M tranMatrix) ;;
   newRTM <- lift (multiplyMatrices newRTM scaleMatrix) ;;
   newRTM <- lift (multiplyMatrices newRTM rotMatrix) ;;

   setField shape (Shape.set_M newRTM))%js.

(** [rebuildTransformationMatrix(shape)] *)
Definition rebuildTransformationMatrix (depth : nat) (shape : loc) : js unit :=
  (tempMatrix <- getField shape Shape.M ;;
   setField shape (Shape.set_rotAroundCenter true) ;;
   tx <- getField shape Shape.tx ;;
   ty <- getField shape Shape.ty ;;
   tranMatrix <- makeTranslationMatrix depth tx ty ;;
   sx <- getField shape Shape.sx ;;
   sy <- getField shape Shape.sy ;;
   scaleMatrix <- makeScaleMatrix depth sx sy ;;
   rotAngle <- getField shape Shape.rotAngle ;;
   rotMatrix <- makeRotationMatrix depth (Num rotAngle) ;;

   rebuildTransformationMatrix_compose shape tranMatrix scaleMatrix rotMatrix)%js.

End Builders.

(** ** The matrix product, in the words of the specification *)

(** The sum over [k = 0, 1, 2] of [f k], added in that order. *)
Definition sum3 (f : nat -> float) : float :=
  (f 0%nat + f 1%nat + f 2%nat)%float.

(** Column [c], row [r] of the product of two column-major 3x3 matrices. *)
Definition product_entry (a1 a2 : list float) (c r : nat) : float :=
  sum3 (fun k => elem a1 (3 * k + r) * elem a2 (3 * c + k))%float.

(** ** [main.js]: the render loop *)

(** The calls the render loop makes on the rendering context, the shader
    and the shapes' colour and vertex buffer, in the order it makes them. *)
Inductive call : Type :=
  | gl_clear
  | shader_use
  | color_passToShader (color : nat)
  | shader_uProjection (projM : loc)
  | buffer_attribPointer (buffer : nat)
  | buffer_drawLineLoop (buffer : nat)
  | buffer_drawTriangleFan (buffer : nat)
  | buffer_drawLines (buffer : nat)
  | buffer_drawTriangles (buffer : nat).

Section RenderLoop.

(** The module-wide projection matrix. *)
Variable projM : loc.

(** [renderShape(shape, index)] *)
Definition renderShape (shape : Shape.t) (index : nat) : list call :=
  [ color_passToShader (Shape.color shape);
    shader_uProjection projM;
    buffer_attribPointer (Shape.buffer shape) ] ++
  if negb (Shape.filled shape)
     && negb (Shape.SHAPE_TYPE_eqb (Shape.type shape) Shape.LINE)
  then [ buffer_drawLineLoop (Shape.buffer shape) ]
  else
    match Shape.type shape with
    | Shape.CIRCLE => [ buffer_drawTriangleFan (Shape.buffer shape) ]
    | Shape.LINE => [ buffer_drawLines (Shape.buffer shape) ]
    | Shape.TRIANGLE => [ buffer_drawTriangles (Shape.buffer shape) ]
    end.

(** [Array.prototype.forEach]: the callback runs on each element with
    its index, from index 0 upwards. *)
Definition forEach {A} (f : A -> nat -> list call) (a : list A) : list call :=
  concat (imap (fun index elem => f elem index) a).

(** [renderScene(time)], on the module-wide [scene]. *)
Definition renderScene (scene : list Shape.t) : list call :=
  [ gl_clear; shader_use ] ++ forEach renderShape scene.

End RenderLoop.

(** ** What the specification says, as definitions *)

(** The homogeneous product [M . (P.x, P.y, 1)], first two coordinates. *)
Definition homogeneous_x (m : list float) (p : Point.t) : float :=
  (elem m 0 * Point.x p + elem m 3 * Point.y p + elem m 6)%float.

Definition homogeneous_y (m : list float) (p : Point.t) : float :=
  (elem m 1 * Point.x p + elem m 4 * Point.y p + elem m 7)%float.

(** The draw primitive for a shape's type and fill state: a line shape is
    drawn as line segments whatever its fill state; another shape is drawn
    as a line loop when it is not filled; a filled circle as a triangle
    fan; a filled triangle as triangles. *)
Definition selected_primitive (type : Shape.SHAPE_TYPE) (filled : bool)
    (buffer : nat) : call :=
  match type, filled with
  | Shape.LINE, _ => buffer_drawLines buffer
  | _, false => buffer_drawLineLoop buffer
  | Shape.CIRCLE, true => buffer_drawTriangleFan buffer
  | Shape.TRIANGLE, true => buffer_drawTriangles buffer
  end.

(** The draw calls among the calls of the render loop. *)
Definition is_draw (c : call) : bool :=
  match c with
  | buffer_drawLineLoop _ | buffer_drawTriangleFan _
  | buffer_drawLines _ | buffer_drawTriangles _ => true
  | _ => false
  end.

Definition draws (cs : list call) : list call := List.filter is_draw cs.

(** ** Concrete matrices, shapes and stores *)

Definition identityMatrix : list float := [1; 0; 0;  0; 1; 0;  0; 0; 1]%float.

(** Scaling by 2 in both directions. *)
Definition scale2 : list float := [2; 0; 0;  0; 2; 0;  0; 0; 1]%float.

(** The translations by (1, 0), (10, 0) and (20, 0). *)
Definition translate1 : list float := [1; 0; 0;  0; 1; 0;  1; 0; 1]%float.
Definition translate10 : list float := [1; 0; 0;  0; 1; 0;  10; 0; 1]%float.
Definition translate20 : list float := [1; 0; 0;  0; 1; 0;  20; 0; 1]%float.

(** The point (1, 1) at reference 1 and the scaling at reference 2. *)
Definition store_point_scale : heap :=
  <[2 := Arr scale2]> (<[1 := Pt (Point.mk 1 1)]> ∅).

(** The point (0, 0) at reference 1, the translation by (1, 0) at
    reference 2 and the scaling at reference 3. *)
Definition store_point_A_B : heap :=
  <[3 := Arr scale2]> (<[2 := Arr translate1]> (<[1 := Pt (Point.mk 0 0)]> ∅)).

(** Two matrices, at references 1 and 2. *)
Definition store_two_matrices : heap :=
  <[2 := Arr translate10]> (<[1 := Arr scale2]> ∅).

(** A shape with [tx = 10], [ty = 0], [sx = 2], [sy = 2], [rotAngle = 0],
    [rotAroundCenter = false], whose matrix is the array at reference 1. *)
Definition the_shape : Shape.t :=
  Shape.mk 10 0 2 2 0 false 1 Shape.TRIANGLE true 4 5.

(** The identity matrix at reference 1, the shape at reference 2 and its
    centroid (5, 5) at reference 3. *)
Definition store_shape : heap :=
  <[3 := Pt (Point.mk 5 5)]> (<[2 := Shp the_shape]> (<[1 := Arr identityMatrix]> ∅)).

(** A shape that was already translated by (10, 0): its matrix, at
    reference 1, is that translation.  References 3, 4 and 5 hold the
    translation, scale and rotation matrices of an unchanged rebuild:
    the translation by (10, 0) and two identities. *)
Definition moved_shape : Shape.t :=
  Shape.mk 10 0 1 1 0 true 1 Shape.TRIANGLE true 6 7.

Definition store_moved_shape : heap :=
  <[5 := Arr identityMatrix]> (<[4 := Arr identityMatrix]> (<[3 := Arr translate10]>
    (<[2 := Shp moved_shape]> (<[1 := Arr translate10]> ∅)))).

(** ** [main.js]: the frame callback *)

(** [null].  No object of the store has the reference 0: [fresh_loc] starts
    at 1. *)
Definition null : loc := 0.

(** The numbers the frame callback reads from the rendering context
    [gl]: the size of its canvas and of its drawing buffer. *)
Module GL.
Record t : Type := mk {
  canvas_width : float;
  canvas_height : float;
  drawingBufferWidth : float;
  drawingBufferHeight : float
}.
End GL.

(** The module-wide variables of [main.js] the frame callback uses, and
    [Interface.updateRequested].  [stats] says whether the variable
    [stats] holds an object. *)
Module Globals.
Record t : Type := mk {
  gl : GL.t;
  projM : loc;
  scene : list Shape.t;
  stats : bool;
  updateRequested : bool
}.

Definition set_gl (v : GL.t) (g : t) : t :=
  mk v (projM g) (scene g) (stats g) (updateRequested g).

Definition set_projM (v : loc) (g : t) : t :=
  mk (gl g) v (scene g) (stats g) (updateRequested g).

Definition set_updateRequested (v : bool) (g : t) : t :=
  mk (gl g) (projM g) (scene g) (stats g) v.
End Globals.

(** The calls a frame makes, in the order it makes them.  The two
    messages of [console.info] are kept as the numbers they print. *)
Inductive frame_call : Type :=
  | stats_begin
  | stats_end
  | gl_viewport (x y width height : float)
  | console_info_Canvas (width height : float)
  | console_info_Buffer (width height : float)
  | render_call (c : call)
  | requestAnimationFrame_checkRender.

Section FrameCallback.

(** [resizeCanvasToDisplaySize] of [utils], which is not part of the
    sources: it may change the size of the canvas, and says whether it
    did. *)
Variable resizeCanvasToDisplaySize : GL.t -> bool * GL.t.

(** The build-time constant [__DEV__]. *)
Variable DEV : bool.

(** [resizeCanvas()] *)
Definition resizeCanvas (g : Globals.t) (h : heap) :
    bool * Globals.t * heap * list frame_call :=
  let (resized, gl) := resizeCanvasToDisplaySize (Globals.gl g) in
  let g := Globals.set_gl gl g in
  if resized then
    let calls :=
      [ gl_viewport 0 0 (GL.canvas_width gl) (GL.canvas_height gl) ] ++
      (if DEV
       then [ console_info_Canvas (GL.canvas_width gl) (GL.canvas_height gl);
              console_info_Buffer (GL.drawingBufferWidth gl)
                                  (GL.drawingBufferHeight gl) ]
       else []) in
    let (M, h) :=
      orthoMatrix 0 (GL.canvas_height gl - 1)%float
                  0 (GL.canvas_width gl - 1)%float undefined undefined h in
    let g := Globals.set_projM M g in
    (true, g, h, calls)
  else
    (false, g, h, []).

(** [checkRender(time)] *)
Definition checkRender (g : Globals.t) (h : heap) :
    Globals.t * heap * list frame_call :=
  let calls0 := if Globals.stats g then [ stats_begin ] else [] in
  let '(resized, g, h, calls1) := resizeCanvas g h in
  let '(g, calls2) :=
    if resized || Globals.updateRequested g then
      let g := Globals.set_updateRequested false g in
      (g, map render_call (renderScene (Globals.projM g) (Globals.scene g)))
    else (g, []) in
  let calls3 := if Globals.stats g then [ stats_end ] else [] in
  (g, h, calls0 ++ calls1 ++ calls2 ++ calls3 ++
         [ requestAnimationFrame_checkRender ]).

End FrameCallback.

(** ** More of what the code computes, as definitions *)

(** [Number.isFinite], [Number.isNaN] and [Infinity]. *)
Definition isFinite (x : float) : bool := PrimFloat.is_finite x.

Definition isNaN (x : float) : bool := PrimFloat.is_nan x.

Definition Infinity : float := Eval cbv in (1 / 0)%float.

(** The product of two column-major 3x3 matrices, entry by entry. *)
Definition matrix_product (a1 a2 : list float) : list float :=
  flat_map (fun c => map (product_entry a1 a2 c) [0; 1; 2]) [0; 1; 2].

(** What [renderShape] calls for a shape, in order. *)
Definition shape_calls (projM : loc) (shape : Shape.t) : list call :=
  [ color_passToShader (Shape.color shape);
    shader_uProjection projM;
    buffer_attribPointer (Shape.buffer shape);
    selected_primitive (Shape.type shape) (Shape.filled shape)
                       (Shape.buffer shape) ].

(** The sixteen entries of the projection [resizeCanvas] builds for a
    canvas of a given size. *)
Definition canvas_projection (width height : float) : list float :=
  [ 2 / (width - 1 - 0); 0; 0; 0;
    0; 2 / (height - 1 - 0); 0; 0;
    0; 0; -2 / (1.0 - -1.0); 0;
    - (width - 1 + 0) / (width - 1 - 0);
    - (height - 1 + 0) / (height - 1 - 0);
    - (1.0 + -1.0) / (1.0 - -1.0); 1 ]%float.

(** [a] is zero, of either sign. *)
Definition is_zero_number (z : float) : Prop :=
  exists s, Prim2SF z = S754_zero s.

(** [a] and [b] are the same number: the same value, or two zeros. *)
Definition same_number (a b : float) : Prop :=
  a = b \/ (is_zero_number a /\ is_zero_number b).

(** An empty array at reference 1 and the identity matrix at reference 2. *)
Definition store_empty_array : heap :=
  <[2 := Arr identityMatrix]> (<[1 := Arr []]> ∅).


(** The frame calls that ask for another frame. *)
Definition is_request (c : frame_call) : bool :=
  match c with
  | requestAnimationFrame_checkRender => true
  | _ => false
  end.

(** The frame calls made by [renderScene]. *)
Definition is_render_call (c : frame_call) : bool :=
  match c with
  | render_call _ => true
  | _ => false
  end.

(** A canvas of 640 by 480, and one of 800 by 600. *)
Definition gl_640 : GL.t := GL.mk 640 480 640 480.
Definition gl_800 : GL.t := GL.mk 800 600 800 600.

(** Module-wide variables for a scene of one shape, with no projection
    yet and no update requested. *)
Definition the_globals : Globals.t :=
  Globals.mk gl_640 null [the_shape] true false.

(** * Properties *)

(** ** The store *)

Lemma fresh_lookup (h : heap) : h !! fresh_loc h = None.
Proof.
  destruct (h !! fresh_loc h) as [o|] eqn:E; [|done].
  apply elem_of_map_to_list in E.
  assert (fresh_loc h ∈ (map_to_list h).*1) as Hin.
  { apply list_elem_of_fmap. by exists (fresh_loc h, o). }
  apply max_list_elem_of_le in Hin. unfold fresh_loc in Hin at 1. lia.
Qed.

Lemma fresh_ne (h : heap) (l : loc) :
  is_Some (h !! l) -> l <> fresh_loc h.
Proof.
  intros Hl ->. rewrite fresh_lookup in Hl. by destruct Hl.
Qed.

Lemma alloc_eq (o : object) (h : heap) :
  alloc o h = (fresh_loc h, <[fresh_loc h := o]> h).
Proof. reflexivity. Qed.

Lemma rd_insert_ne (h : heap) (A B : loc) (o : object) (i : nat) :
  A <> B -> rd (<[B := o]> h) A i = rd h A i.
Proof.
  intros Hne. unfold rd. by rewrite lookup_insert_ne.
Qed.

Lemma rd_Arr (h : heap) (A : loc) (a : list float) (i : nat) :
  h !! A = Some (Arr a) -> rd h A i = elem a i.
Proof. intros H. unfold rd. by rewrite H. Qed.

Lemma wr_insert (h : heap) (A : loc) (a : list float) (i : nat) (v : float) :
  wr A i v (<[A := Arr a]> h) = <[A := Arr (array_store a i v)]> h.
Proof.
  unfold wr. rewrite lookup_insert_eq. apply insert_insert_eq.
Qed.

Lemma assign_insert (h : heap) (A : loc) (a : list float) (i : nat)
    (e : heap -> float) :
  assign A i e (<[A := Arr a]> h) =
  <[A := Arr (array_store a i (e (<[A := Arr a]> h)))]> h.
Proof. apply wr_insert. Qed.

Lemma array_store_lt (a : list float) (i : nat) (v : float) :
  i < length a -> array_store a i v = <[i := v]> a.
Proof.
  intros Hlt. unfold array_store. by rewrite decide_True.
Qed.

Lemma rd_x_insert_ne (h : heap) (P Q : loc) (o : object) :
  P <> Q -> rd_x (<[Q := o]> h) P = rd_x h P.
Proof. intros Hne. unfold rd_x. by rewrite lookup_insert_ne. Qed.

Lemma rd_y_insert_ne (h : heap) (P Q : loc) (o : object) :
  P <> Q -> rd_y (<[Q := o]> h) P = rd_y h P.
Proof. intros Hne. unfold rd_y. by rewrite lookup_insert_ne. Qed.

Lemma wr_x_insert (h : heap) (P : loc) (p : Point.t) (v : float) :
  wr_x P v (<[P := Pt p]> h) = <[P := Pt (Point.mk v (Point.y p))]> h.
Proof. unfold wr_x. rewrite lookup_insert_eq. apply insert_insert_eq. Qed.

Lemma wr_y_insert (h : heap) (P : loc) (p : Point.t) (v : float) :
  wr_y P v (<[P := Pt p]> h) = <[P := Pt (Point.mk (Point.x p) v)]> h.
Proof. unfold wr_y. rewrite lookup_insert_eq. apply insert_insert_eq. Qed.

(** ** [multiplyMatrices] *)

(** The store after [multiplyMatrices(M1, M2)] is the store before it plus
    one new array; the array holds the nine sums the code assigns. *)
Lemma multiplyMatrices_eq (h : heap) (M1 M2 : loc) :
  is_Some (h !! M1) -> is_Some (h !! M2) ->
  let M3 := (multiplyMatrices M1 M2 h).1 in
  h !! M3 = None /\
  (multiplyMatrices M1 M2 h).2 =
    <[M3 := Arr
      [ rd h M1 0 * rd h M2 0 + rd h M1 3 * rd h M2 1 + rd h M1 6 * rd h M2 2;
        rd h M1 1 * rd h M2 0 + rd h M1 4 * rd h M2 1 + rd h M1 7 * rd h M2 2;
        rd h M1 2 * rd h M2 0 + rd h M1 5 * rd h M2 1 + rd h M1 8 * rd h M2 2;
        rd h M1 0 * rd h M2 3 + rd h M1 3 * rd h M2 4 + rd h M1 6 * rd h M2 5;
        rd h M1 1 * rd h M2 3 + rd h M1 4 * rd h M2 4 + rd h M1 7 * rd h M2 5;
        rd h M1 2 * rd h M2 3 + rd h M1 5 * rd h M2 4 + rd h M1 8 * rd h M2 5;
        rd h M1 0 * rd h M2 6 + rd h M1 3 * rd h M2 7 + rd h M1 6 * rd h M2 8;
        rd h M1 1 * rd h M2 6 + rd h M1 4 * rd h M2 7 + rd h M1 7 * rd h M2 8;
        rd h M1 2 * rd h M2 6 + rd h M1 5 * rd h M2 7 + rd h M1 8 * rd h M2 8
      ]%float]> h.
Proof.
  intros H1 H2 M3.
  change M3 with (fresh_loc h).
  pose proof (fresh_lookup h) as Hf.
  pose proof (fresh_ne h M1 H1) as Hn1.
  pose proof (fresh_ne h M2 H2) as Hn2.
  split; [exact Hf|].
  unfold multiplyMatrices. rewrite alloc_eq.
  generalize dependent (fresh_loc h). clear M3. intros M3 Hf Hn1 Hn2.
  cbv zeta. cbn [snd fst].
  repeat (rewrite assign_insert, array_store_lt by (simpl; lia);
          cbn [list_insert insert]; rewrite ?rd_insert_ne by done).
  reflexivity.
Qed.

(** C6: for arrays [M1] and [M2] in column-major layout,
    [multiplyMatrices(M1, M2)] returns a new 9-element array whose entry
    at column [c], row [r] (flat index [3c+r]) is the sum over [k] of
    [M1[3k+r] * M2[3c+k]]; the store is otherwise unchanged, so neither
    input is mutated. *)
Theorem multiplyMatrices_product (h : heap) (M1 M2 : loc) (a1 a2 : list float) :
  h !! M1 = Some (Arr a1) ->
  h !! M2 = Some (Arr a2) ->
  exists (M3 : loc) (a3 : list float),
    multiplyMatrices M1 M2 h = (M3, <[M3 := Arr a3]> h) /\
    h !! M3 = None /\
    length a3 = 9 /\
    (forall c r, c < 3 -> r < 3 ->
       a3 !! (3 * c + r) = Some (product_entry a1 a2 c r)) /\
    (<[M3 := Arr a3]> h) !! M1 = Some (Arr a1) /\
    (<[M3 := Arr a3]> h) !! M2 = Some (Arr a2).
Proof.
  intros H1 H2.
  destruct (multiplyMatrices_eq h M1 M2) as [Hf Hh]; [by eexists..|].
  destruct (multiplyMatrices M1 M2 h) as [M3 h'] eqn:E. cbn [fst snd] in Hf, Hh.
  eexists M3, _. split; [by rewrite Hh|].
  split; [exact Hf|]. split; [reflexivity|].
  split.
  - intros c r Hc Hr. unfold product_entry, sum3.
    rewrite !(rd_Arr h M1 a1), !(rd_Arr h M2 a2) by assumption.
    destruct c as [|[|[|c]]]; [| | |lia];
      (destruct r as [|[|[|r]]]; [| | |lia]); reflexivity.
  - assert (M1 <> M3) by (intros ->; congruence).
    assert (M2 <> M3) by (intros ->; congruence).
    by rewrite !lookup_insert_ne.
Qed.


(** C6 at two concrete matrices. *)
Lemma multiplyMatrices_product_witness :
  store_two_matrices !! 1 = Some (Arr scale2) /\
  store_two_matrices !! 2 = Some (Arr translate10) /\
  exists (M3 : loc) (a3 : list float),
    multiplyMatrices 1 2 store_two_matrices =
      (M3, <[M3 := Arr a3]> store_two_matrices) /\
    store_two_matrices !! M3 = None /\
    length a3 = 9 /\
    (forall c r, c < 3 -> r < 3 ->
       a3 !! (3 * c + r) = Some (product_entry scale2 translate10 c r)) /\
    (<[M3 := Arr a3]> store_two_matrices) !! 1 = Some (Arr scale2) /\
    (<[M3 := Arr a3]> store_two_matrices) !! 2 = Some (Arr translate10).
Proof.
  split; [reflexivity|]. split; [reflexivity|].
  apply (multiplyMatrices_product store_two_matrices 1 2 scale2 translate10);
    reflexivity.
Defined.

(** ** [transformPoint] *)

(** The store after [transformPoint(P, M)] is the store before it plus one
    new point, whose coordinates are [M[6] + P.x] and [M[7] + P.y]. *)
Lemma transformPoint_eq (h : heap) (P M : loc) :
  is_Some (h !! P) ->
  transformPoint P M h =
    (fresh_loc h,
     <[fresh_loc h := Pt (Point.mk (rd h M 6 + rd_x h P) (rd h M 7 + rd_y h P))]> h).
Proof.
  intros HP.
  pose proof (fresh_ne h P HP) as HnP.
  assert (HM : forall p i, rd (<[fresh_loc h := Pt p]> h) M i = rd h M i).
  { intros p i. unfold rd. destruct (decide (M = fresh_loc h)) as [->|Hne].
    - by rewrite lookup_insert_eq, fresh_lookup.
    - by rewrite lookup_insert_ne. }
  unfold transformPoint. rewrite alloc_eq.
  generalize dependent (fresh_loc h). intros myPoint HnP HM.
  cbv zeta. unfold assign_x, assign_y.
  rewrite wr_x_insert, wr_y_insert. cbn [Point.x Point.y].
  rewrite !HM.
  by rewrite !rd_x_insert_ne, !rd_y_insert_ne.
Qed.

(** C1: on the point (1, 1) and the matrix of the scaling by 2,
    [transformPoint] returns a new point (1, 1) and leaves its argument as
    it was; the homogeneous product is the point (2, 2).  The code adds
    the translation column of the matrix and ignores its other entries. *)
Theorem transformPoint_ignores_linear_part :
  let '(Q, h) := transformPoint 1 2 store_point_scale in
  h !! Q = Some (Pt (Point.mk 1 1)) /\
  h !! 1 = Some (Pt (Point.mk 1 1)) /\
  Q <> 1 /\
  homogeneous_x scale2 (Point.mk 1 1) = 2%float /\
  homogeneous_y scale2 (Point.mk 1 1) = 2%float /\
  strict_eq (rd_x h Q) (homogeneous_x scale2 (Point.mk 1 1)) = false /\
  strict_eq (rd_y h Q) (homogeneous_y scale2 (Point.mk 1 1)) = false.
Proof.
  vm_compute. repeat split; try reflexivity. discriminate.
Qed.

(** C5: with [A] the translation by (1, 0), [B] the scaling by 2 and [P]
    the origin, [transformPoint(transformPoint(P, A), B)] is the point
    (1, 0) and [transformPoint(P, multiplyMatrices(B, A))] is the point
    (2, 0). *)
Theorem transformPoint_composition_fails :
  let '(PA, h1) := transformPoint 1 2 store_point_A_B in
  let '(PAB, h2) := transformPoint PA 3 h1 in
  let '(BA, h3) := multiplyMatrices 3 2 store_point_A_B in
  let '(PBA, h4) := transformPoint 1 BA h3 in
  h2 !! PAB = Some (Pt (Point.mk 1 0)) /\
  h3 !! BA = Some (Arr [2; 0; 0;  0; 2; 0;  2; 0; 1]%float) /\
  h4 !! PBA = Some (Pt (Point.mk 2 0)) /\
  strict_eq (rd_x h2 PAB) (rd_x h4 PBA) = false.
Proof.
  vm_compute. repeat split; reflexivity.
Qed.

(** ** The builders *)

Section BuildersFacts.

Variables Math_cos Math_sin : float -> float.

(** Whatever room the call stack has, [makeRotationMatrix] uses it up:
    each activation starts a nested one before doing anything else. *)
Lemma makeRotationMatrix_exhausts (depth : nat) (theta : value) (h : heap) :
  makeRotationMatrix Math_cos Math_sin depth theta h = (Throw RangeError, h).
Proof.
  revert theta. induction depth as [|depth IH]; intros theta.
  - reflexivity.
  - cbn [makeRotationMatrix]. unfold bind at 1. by rewrite IH.
Qed.

Lemma makeTranslationMatrix_exhausts (depth : nat) (tx ty : float) (h : heap) :
  makeTranslationMatrix Math_cos Math_sin depth tx ty h = (Throw RangeError, h).
Proof.
  unfold makeTranslationMatrix, bind at 1.
  by rewrite makeRotationMatrix_exhausts.
Qed.

Lemma makeScaleMatrix_exhausts (depth : nat) (sx sy : float) (h : heap) :
  makeScaleMatrix Math_cos Math_sin depth sx sy h = (Throw RangeError, h).
Proof.
  unfold makeScaleMatrix, bind at 1.
  by rewrite makeRotationMatrix_exhausts.
Qed.

(** An activation of [makeRotationMatrix] returns only if the activation
    it starts returns. *)
Lemma makeRotationMatrix_returns_inv (depth : nat) (theta : value)
    (h h' : heap) (A : loc) :
  makeRotationMatrix Math_cos Math_sin (S depth) theta h = (Ok A, h') ->
  exists h'', makeRotationMatrix Math_cos Math_sin depth undefined h = (Ok A, h'').
Proof.
  cbn [makeRotationMatrix]. unfold bind at 1.
  destruct (makeRotationMatrix Math_cos Math_sin depth undefined h)
    as [[B|e] h''] eqn:E; [|discriminate].
  unfold bind, makeRotationMatrix_assignments, exec, ret. cbn.
  intros [= <- _]. by exists h''.
Qed.

(** The four assignments of [makeRotationMatrix], run on an array. *)
Lemma makeRotationMatrix_assignments_eq (theta : value) (A : loc)
    (a0 a1 a2 a3 a4 a5 a6 a7 a8 : float) (h : heap) :
  makeRotationMatrix_assignments Math_cos Math_sin theta A
    (<[A := Arr [a0; a1; a2; a3; a4; a5; a6; a7; a8]]> h) =
  (Ok tt,
   <[A := Arr [Math_cos (ToNumber theta); Math_sin (ToNumber theta); a2;
               (- Math_sin (ToNumber theta))%float; Math_cos (ToNumber theta); a5;
               a6; a7; a8]]> h).
Proof.
  unfold makeRotationMatrix_assignments, bind, exec.
  repeat (rewrite assign_insert, array_store_lt by (simpl; lia);
          cbn [list_insert insert]).
  reflexivity.
Qed.

(** [rebuildTransformationMatrix] on a shape: the flag is set, then the
    first builder exhausts the stack; [shape.M] is not assigned. *)
Lemma rebuildTransformationMatrix_exhausts (depth : nat) (shape : loc)
    (s : Shape.t) (h : heap) :
  h !! shape = Some (Shp s) ->
  rebuildTransformationMatrix Math_cos Math_sin depth shape h =
    (Throw RangeError, <[shape := Shp (Shape.set_rotAroundCenter true s)]> h).
Proof.
  intros Hs. unfold rebuildTransformationMatrix.
  unfold bind at 1. unfold getField at 1. rewrite Hs.
  unfold bind at 1. unfold setField at 1. rewrite Hs.
  unfold bind at 1. unfold getField at 1. rewrite lookup_insert_eq.
  unfold bind at 1. unfold getField at 1. rewrite lookup_insert_eq.
  unfold bind at 1. by rewrite makeTranslationMatrix_exhausts.
Qed.

(** On something that is not a shape the first statement throws. *)
Lemma rebuildTransformationMatrix_not_shape (depth : nat) (shape : loc)
    (h : heap) :
  (forall s, h !! shape <> Some (Shp s)) ->
  rebuildTransformationMatrix Math_cos Math_sin depth shape h =
    (Throw TypeError, h).
Proof.
  intros Hs. unfold rebuildTransformationMatrix.
  unfold bind at 1. unfold getField at 1.
  destruct (h !! shape) as [[a|p|s]|]; try reflexivity. by destruct (Hs s).
Qed.

End BuildersFacts.

(** C10: whatever room the call stack has, no activation of
    [makeRotationMatrix] returns: each one starts a nested activation
    before anything else, until the stack is exhausted.  The same holds
    of [makeTranslationMatrix] and [makeScaleMatrix], whose first statement
    is a call of [makeRotationMatrix]. *)
Theorem builders_never_return (Math_cos Math_sin : float -> float) (depth : nat) :
  (forall theta h,
     makeRotationMatrix Math_cos Math_sin depth theta h = (Throw RangeError, h)) /\
  (forall tx ty h,
     makeTranslationMatrix Math_cos Math_sin depth tx ty h = (Throw RangeError, h)) /\
  (forall sx sy h,
     makeScaleMatrix Math_cos Math_sin depth sx sy h = (Throw RangeError, h)).
Proof.
  split; [|split]; intros.
  - apply makeRotationMatrix_exhausts.
  - apply makeTranslationMatrix_exhausts.
  - apply makeScaleMatrix_exhausts.
Qed.

(** C4: [makeRotationMatrix], called with an angle, returns no matrix:
    the call ends with the stack exhausted and the store as it was.  The
    four assignments it would make next, run on an identity matrix, store
    the cosine and the sine of the angle as it was passed, in degrees. *)
Theorem makeRotationMatrix_no_rotation (Math_cos Math_sin : float -> float) :
  (forall depth theta h,
     makeRotationMatrix Math_cos Math_sin depth (Num theta) h =
       (Throw RangeError, h)) /\
  (forall theta A h,
     makeRotationMatrix_assignments Math_cos Math_sin (Num theta) A
       (<[A := Arr identityMatrix]> h) =
     (Ok tt,
      <[A := Arr [Math_cos theta; Math_sin theta; 0;
                  - Math_sin theta; Math_cos theta; 0;
                  0; 0; 1]%float]> h)).
Proof.
  split.
  - intros. apply makeRotationMatrix_exhausts.
  - intros. apply makeRotationMatrix_assignments_eq.
Qed.

(** C2: on the shape of [store_shape], two calls of
    [rebuildTransformationMatrix] in a row both end with the stack
    exhausted; [shape.M] is the array it was and the array holds what it
    held, so no matrix is recomputed.  The last statements of the function,
    run for a shape whose matrix is the translation by (10, 0) with the
    translation by (10, 0) and two identities as the three matrices, store
    the translation by (20, 0): the previous matrix is multiplied in. *)
Theorem rebuild_recomputes_nothing (Math_cos Math_sin : float -> float)
    (depth1 depth2 : nat) :
  (let '(r1, h1) :=
     rebuildTransformationMatrix Math_cos Math_sin depth1 2 store_shape in
   let '(r2, h2) :=
     rebuildTransformationMatrix Math_cos Math_sin depth2 2 h1 in
   r1 = Throw RangeError /\ r2 = Throw RangeError /\
   getField 2 Shape.M h1 = (Ok 1, h1) /\
   h1 !! 1 = Some (Arr identityMatrix) /\
   getField 2 Shape.M h2 = (Ok 1, h2) /\
   h2 !! 1 = Some (Arr identityMatrix)) /\
  (let '(r, h) := rebuildTransformationMatrix_compose 2 3 4 5 store_moved_shape in
   r = Ok tt /\
   h !! 1 = Some (Arr translate10) /\
   exists newRTM,
     getField 2 Shape.M h = (Ok newRTM, h) /\
     h !! newRTM = Some (Arr translate20)).
Proof.
  split.
  - rewrite (rebuildTransformationMatrix_exhausts _ _ depth1 2 the_shape)
      by reflexivity.
    rewrite (rebuildTransformationMatrix_exhausts _ _ depth2 2
               (Shape.set_rotAroundCenter true the_shape)) by reflexivity.
    vm_compute. repeat split; reflexivity.
  - vm_compute. repeat split; try reflexivity. eexists. split; reflexivity.
Qed.

(** C3: on the shape with [tx = 10], [ty = 0], [sx = 2], [sy = 2],
    [rotAngle = 0], [rotAroundCenter = false], centroid (5, 5) and the
    identity as its matrix, [rebuildTransformationMatrix] ends with the
    stack exhausted and the matrix is still the identity; the centroid
    transformed by it is the point (5, 5). *)
Theorem rebuild_leaves_centroid (Math_cos Math_sin : float -> float)
    (depth : nat) :
  let '(r, h1) :=
    rebuildTransformationMatrix Math_cos Math_sin depth 2 store_shape in
  let '(Q, h2) := transformPoint 3 1 h1 in
  r = Throw RangeError /\
  getField 2 Shape.M h1 = (Ok 1, h1) /\
  h1 !! 1 = Some (Arr identityMatrix) /\
  h2 !! Q = Some (Pt (Point.mk 5 5)) /\
  strict_eq (rd_x h2 Q) 15 = false.
Proof.
  rewrite (rebuildTransformationMatrix_exhausts _ _ depth 2 the_shape)
    by reflexivity.
  vm_compute. repeat split; reflexivity.
Qed.

(** C8: on the shape of [store_shape], whose [rotAroundCenter] is false,
    [rebuildTransformationMatrix] leaves [rotAroundCenter] true; [tx],
    [ty], [sx], [sy], [rotAngle] and [M] are as they were. *)
Theorem rebuild_sets_rotAroundCenter (Math_cos Math_sin : float -> float)
    (depth : nat) :
  let '(r, h1) :=
    rebuildTransformationMatrix Math_cos Math_sin depth 2 store_shape in
  getField 2 Shape.rotAroundCenter store_shape = (Ok false, store_shape) /\
  getField 2 Shape.rotAroundCenter h1 = (Ok true, h1) /\
  h1 !! 2 = Some (Shp (Shape.mk 10 0 2 2 0 true 1 Shape.TRIANGLE true 4 5)) /\
  h1 !! 1 = store_shape !! 1.
Proof.
  rewrite (rebuildTransformationMatrix_exhausts _ _ depth 2 the_shape)
    by reflexivity.
  vm_compute. repeat split; reflexivity.
Qed.

(** ** [orthoMatrix] *)

(** C7: [orthoMatrix(b, t, l, r, n, f)] returns a new 16-element array
    [A1,0,0,0, 0,B1,0,0, 0,0,C1,0, A2,B2,C2,1] with [A1 = 2/(r-l)],
    [B1 = 2/(t-b)], [C1 = -2/(f-n)], [A2 = -(r+l)/(r-l)],
    [B2 = -(t+b)/(t-b)], [C2 = -(f+n)/(f-n)]; a missing [n] is [-1.0] and a
    missing [f] is [1.0]; and [orthoMatrix(0, 100, 0, 200)] has [A1] equal
    to 0.01, [B1] to 0.02, [C1] to -1, [A2] to -1, [B2] to -1 and [C2]
    to 0 (it is the zero with the sign bit set, [-(1 + -1) / 2], which
    [===] equates with 0). *)
Theorem orthoMatrix_standard :
  (forall b t l r n f h,
     orthoMatrix b t l r (Num n) (Num f) h =
       (fresh_loc h,
        <[fresh_loc h :=
            Arr [2 / (r - l); 0; 0; 0;
                 0; 2 / (t - b); 0; 0;
                 0; 0; -2 / (f - n); 0;
                 - (r + l) / (r - l); - (t + b) / (t - b); - (f + n) / (f - n); 1
                ]%float]> h)) /\
  (forall b t l r h,
     orthoMatrix b t l r undefined undefined h =
     orthoMatrix b t l r (Num (-1.0)) (Num 1.0) h) /\
  (forall h,
     let '(M, h') := orthoMatrix 0 100 0 200 undefined undefined h in
     h !! M = None /\
     exists A1 B1 C1 A2 B2 C2,
       h' = <[M := Arr [A1; 0; 0; 0;
                        0; B1; 0; 0;
                        0; 0; C1; 0;
                        A2; B2; C2; 1]%float]> h /\
       strict_eq A1 0.01 = true /\
       strict_eq B1 0.02 = true /\
       strict_eq C1 (-1) = true /\
       strict_eq A2 (-1) = true /\
       strict_eq B2 (-1) = true /\
       strict_eq C2 0 = true).
Proof.
  split; [|split].
  - reflexivity.
  - reflexivity.
  - intros h. unfold orthoMatrix. rewrite alloc_eq.
    split; [apply fresh_lookup|].
    do 6 eexists. split; [reflexivity|].
    vm_compute. repeat split; reflexivity.
Qed.

(** ** The render loop *)

Lemma draws_renderShape (projM : loc) (shape : Shape.t) (index : nat) :
  draws (renderShape projM shape index) =
    [ selected_primitive (Shape.type shape) (Shape.filled shape)
                         (Shape.buffer shape) ].
Proof.
  unfold renderShape.
  destruct shape as [? ? ? ? ? ? ? type filled ? ?]; cbn [Shape.type Shape.filled Shape.buffer Shape.color].
  by destruct type, filled.
Qed.

Lemma draws_app (cs ds : list call) : draws (cs ++ ds) = draws cs ++ draws ds.
Proof. apply List.filter_app. Qed.

(** The draw calls of a callback run on each element of an array, in the
    order of the array, when each run makes one draw call. *)
Lemma draws_forEach {A} (f : A -> nat -> list call) (sel : A -> call)
    (a : list A) :
  (forall elem index, draws (f elem index) = [sel elem]) ->
  draws (forEach f a) = map sel a.
Proof.
  unfold forEach. revert f. induction a as [|x a IH]; intros f Hf.
  - reflexivity.
  - cbn [imap concat map]. rewrite draws_app, Hf.
    cbn [app]. f_equal.
    apply (IH (fun elem index => f elem (S index))).
    intros. apply Hf.
Qed.

(** C9: [renderShape] makes one draw call, the one selected by the shape's
    type and fill state: line segments for a line shape whatever its fill
    state, a line loop for another shape that is not filled, a triangle
    fan for a filled circle, triangles for a filled triangle; and the draw
    calls of [renderScene] are those of the shapes of the scene, in the
    order of the scene array. *)
Theorem renderShape_primitive (projM : loc) :
  (forall shape index,
     draws (renderShape projM shape index) =
       [ selected_primitive (Shape.type shape) (Shape.filled shape)
                            (Shape.buffer shape) ]) /\
  (forall scene,
     draws (renderScene projM scene) =
       map (fun shape =>
              selected_primitive (Shape.type shape) (Shape.filled shape)
                                 (Shape.buffer shape))
           scene).
Proof.
  split.
  - apply draws_renderShape.
  - intros scene. unfold renderScene. rewrite draws_app. cbn [draws List.filter is_draw app].
    apply draws_forEach. apply draws_renderShape.
Qed.

(** * Further properties *)

(** ** Floating-point facts *)

Lemma Prim2SF_NaN : Prim2SF NaN = S754_nan.
Proof. reflexivity. Qed.

Lemma add_NaN_r (x : float) : (x + NaN)%float = NaN.
Proof.
  apply Prim2SF_inj. rewrite add_spec, Prim2SF_NaN.
  unfold SF64add. by destruct (Prim2SF x) as [[]|[]| |[]].
Qed.


Lemma mul_NaN_l (x : float) : (NaN * x)%float = NaN.
Proof.
  apply Prim2SF_inj. by rewrite mul_spec, Prim2SF_NaN.
Qed.

Lemma mul_NaN_r (x : float) : (x * NaN)%float = NaN.
Proof.
  apply Prim2SF_inj. rewrite mul_spec, Prim2SF_NaN.
  unfold SF64mul. by destruct (Prim2SF x) as [[]|[]| |[]].
Qed.

Lemma SFeqb_zero_inv (X : spec_float) :
  SFeqb X (S754_zero false) = true -> exists s, X = S754_zero s.
Proof.
  destruct X as [s|[]| |[] m e]; try discriminate. by exists s.
Qed.

Lemma strict_eq_zero_inv (z : float) :
  strict_eq z 0 = true -> exists s, Prim2SF z = S754_zero s.
Proof.
  unfold strict_eq. rewrite FloatAxioms.eqb_spec. apply SFeqb_zero_inv.
Qed.

Lemma isNaN_false (x : float) :
  isNaN x = false -> SFeqb (Prim2SF x) (Prim2SF x) = true.
Proof.
  unfold isNaN, is_nan. rewrite FloatAxioms.eqb_spec.
  by intros ?%negb_false_iff.
Qed.

(** A zero added on the left leaves a number that is not [NaN] equal to
    itself. *)
Lemma add_zero_l (z x : float) :
  strict_eq z 0 = true -> isNaN x = false ->
  strict_eq (z + x) x = true.
Proof.
  intros [s Hz]%strict_eq_zero_inv Hx%isNaN_false.
  unfold strict_eq. rewrite FloatAxioms.eqb_spec, add_spec, Hz.
  destruct (Prim2SF x) as [sx|sx| |sx m e]; try done.
  by destruct s, sx.
Qed.

Lemma isFinite_Prim2SF (x : float) :
  isFinite x = true ->
  (exists s, Prim2SF x = S754_zero s) \/
  (exists s m e, Prim2SF x = S754_finite s m e).
Proof.
  unfold isFinite, is_finite. intros H.
  apply negb_true_iff, orb_false_iff in H as [Hn Hi].
  unfold Prim2SF. rewrite Hn, Hi.
  destruct (is_zero x); [by left; eexists|].
  destruct (Z.frexp x) as [r ex].
  destruct (shr_fexp _ _ _ _ _) as [shr e'].
  destruct (shr_m shr); [left|right|left]; by repeat eexists.
Qed.

(** A finite number minus itself is the zero with the sign bit clear. *)
Lemma sub_diag_finite (x : float) :
  isFinite x = true -> (x - x)%float = 0%float.
Proof.
  intros H. apply Prim2SF_inj. rewrite sub_spec.
  change (Prim2SF 0) with (S754_zero false).
  destruct (isFinite_Prim2SF x H) as [[s ->]|(s & m & e & ->)].
  - by destruct s.
  - unfold SF64sub, SFsub. cbv zeta. by rewrite Z.sub_diag.
Qed.

(** ** More on [transformPoint] *)

Lemma transformPoint_at_point (h : heap) (P M : loc) (p : Point.t) :
  h !! P = Some (Pt p) ->
  transformPoint P M h =
    (fresh_loc h,
     <[fresh_loc h := Pt (Point.mk (rd h M 6 + Point.x p) (rd h M 7 + Point.y p))]> h).
Proof.
  intros HP. rewrite transformPoint_eq by (by eexists).
  unfold rd_x, rd_y. by rewrite HP.
Qed.



(** For a matrix whose entries 6 and 7 are zero (an identity, a scaling, a
    rotation about the origin) and a point whose coordinates are not
    [NaN], [transformPoint] returns a point with the coordinates of its
    argument. *)
Theorem transformPoint_without_translation (h : heap) (P M : loc) (p : Point.t) :
  h !! P = Some (Pt p) ->
  strict_eq (rd h M 6) 0 = true ->
  strict_eq (rd h M 7) 0 = true ->
  isNaN (Point.x p) = false ->
  isNaN (Point.y p) = false ->
  strict_eq (rd_x (transformPoint P M h).2 (transformPoint P M h).1) (Point.x p) = true /\
  strict_eq (rd_y (transformPoint P M h).2 (transformPoint P M h).1) (Point.y p) = true.
Proof.
  intros HP H6 H7 Hx Hy.
  rewrite (transformPoint_at_point h P M p HP).
  cbn [fst snd]. unfold rd_x, rd_y. rewrite lookup_insert_eq. cbn [Point.x Point.y].
  split; by apply add_zero_l.
Qed.

Lemma transformPoint_without_translation_witness :
  store_point_scale !! 1 = Some (Pt (Point.mk 1 1)) /\
  strict_eq (rd store_point_scale 2 6) 0 = true /\
  strict_eq (rd store_point_scale 2 7) 0 = true /\
  isNaN 1 = false /\
  strict_eq (rd_x (transformPoint 1 2 store_point_scale).2
                  (transformPoint 1 2 store_point_scale).1) 1 = true /\
  strict_eq (rd_y (transformPoint 1 2 store_point_scale).2
                  (transformPoint 1 2 store_point_scale).1) 1 = true.
Proof.
  split; [reflexivity|]. split; [reflexivity|]. split; [reflexivity|].
  split; [reflexivity|].
  apply (transformPoint_without_translation store_point_scale 1 2 (Point.mk 1 1));
    reflexivity.
Defined.



(** ** More on [multiplyMatrices] *)

Lemma multiplyMatrices_matrix_product (h : heap) (M1 M2 : loc)
    (a1 a2 : list float) :
  h !! M1 = Some (Arr a1) ->
  h !! M2 = Some (Arr a2) ->
  multiplyMatrices M1 M2 h =
    (fresh_loc h, <[fresh_loc h := Arr (matrix_product a1 a2)]> h).
Proof.
  intros H1 H2.
  destruct (multiplyMatrices_eq h M1 M2) as [_ Hh]; [by eexists..|].
  rewrite (surjective_pairing (multiplyMatrices M1 M2 h)), Hh.
  change (multiplyMatrices M1 M2 h).1 with (fresh_loc h).
  by rewrite !(rd_Arr h M1 a1), !(rd_Arr h M2 a2).
Qed.

Lemma product_entry_short_l (a1 a2 : list float) (c r : nat) :
  length a1 <= 6 -> product_entry a1 a2 c r = NaN.
Proof.
  intros Hl. unfold product_entry, sum3.
  assert (E : elem a1 (3 * 2 + r) = NaN).
  { unfold elem. rewrite lookup_ge_None_2; [done|lia]. }
  by rewrite E, mul_NaN_l, add_NaN_r.
Qed.

Lemma product_entry_short_r (a1 a2 : list float) (c r : nat) :
  length a2 <= 2 -> product_entry a1 a2 c r = NaN.
Proof.
  intros Hl. unfold product_entry, sum3.
  assert (E : elem a2 (3 * c + 2) = NaN).
  { unfold elem. rewrite lookup_ge_None_2; [done|lia]. }
  by rewrite E, mul_NaN_r, add_NaN_r.
Qed.

(** An array with fewer than seven elements as [M1], or with fewer than
    three as [M2]: [multiplyMatrices] does not throw, and returns a new
    array of nine [NaN]. *)
Theorem multiplyMatrices_short_array (h : heap) (M1 M2 : loc)
    (a1 a2 : list float) :
  h !! M1 = Some (Arr a1) ->
  h !! M2 = Some (Arr a2) ->
  length a1 <= 6 \/ length a2 <= 2 ->
  exists M3 : loc,
    h !! M3 = None /\
    multiplyMatrices M1 M2 h = (M3, <[M3 := Arr (replicate 9 NaN)]> h).
Proof.
  intros H1 H2 Hl. exists (fresh_loc h). split; [apply fresh_lookup|].
  rewrite (multiplyMatrices_matrix_product h M1 M2 a1 a2 H1 H2).
  unfold matrix_product. cbn [flat_map map app replicate].
  destruct Hl as [Hl|Hl].
  - by rewrite !product_entry_short_l.
  - by rewrite !product_entry_short_r.
Qed.

Lemma multiplyMatrices_short_array_witness :
  store_empty_array !! 1 = Some (Arr []) /\
  store_empty_array !! 2 = Some (Arr identityMatrix) /\
  (length ([] : list float) <= 6 \/ length identityMatrix <= 2) /\
  exists M3 : loc,
    store_empty_array !! M3 = None /\
    multiplyMatrices 1 2 store_empty_array =
      (M3, <[M3 := Arr (replicate 9 NaN)]> store_empty_array).
Proof.
  split; [reflexivity|]. split; [reflexivity|].
  split; [left; simpl; lia|].
  apply (multiplyMatrices_short_array store_empty_array 1 2 [] identityMatrix).
  - reflexivity.
  - reflexivity.
  - left. simpl. lia.
Defined.

(** *** Multiplication by one and by zero *)

Lemma Prim2SF_one : Prim2SF 1 = S754_finite false 4503599627370496 (-52).
Proof. reflexivity. Qed.

Lemma iter_shr_52 (m : positive) :
  SpecFloat.iter_pos shr_1 52
    (Build_shr_record (Zpos (Pos.mul 4503599627370496 m)) false false) =
  Build_shr_record (Zpos m) false false.
Proof. reflexivity. Qed.

Lemma digits_xO (p : positive) :
  Zpos (digits2_pos (xO p)) = (Zpos (digits2_pos p) + 1)%Z.
Proof. cbn [digits2_pos]. lia. Qed.

Lemma digits_shift_52 (m : positive) :
  Zpos (digits2_pos (Pos.mul 4503599627370496 m)) =
  (Zpos (digits2_pos m) + 52)%Z.
Proof.
  change (Pos.mul 4503599627370496 m) with (Pos.iter xO m 52).
  simpl Pos.iter. rewrite !digits_xO. lia.
Qed.

(** Rounding the mantissa of a valid number shifted left by 52 bits, with
    the exponent lowered by 52, gives the number back. *)
Lemma binary_round_aux_shift_52 (s : bool) (m : positive) (e : Z) :
  bounded prec emax m e = true ->
  binary_round_aux prec emax s (Zpos (Pos.mul 4503599627370496 m))
                   (-52 + e) loc_Exact =
  S754_finite s m e.
Proof.
  intros [Hc He]%andb_prop. apply Z.eqb_eq in Hc.
  unfold binary_round_aux, shr_fexp. unfold Zdigits2 at 1.
  rewrite digits_shift_52.
  replace (Z.pos (digits2_pos m) + 52 + (-52 + e))%Z
    with (Z.pos (digits2_pos m) + e)%Z by lia.
  rewrite Hc. replace (e - (-52 + e))%Z with 52%Z by lia.
  unfold shr at 1. cbn [shr_record_of_loc]. rewrite iter_shr_52.
  cbn [shr_m loc_of_shr_record round_nearest_even Zdigits2].
  replace (-52 + e + 52)%Z with e by lia.
  rewrite Hc, Z.sub_diag. cbn [shr shr_record_of_loc shr_m].
  by rewrite He.
Qed.

Lemma mul_one_l (x : float) : (1 * x)%float = x.
Proof.
  apply Prim2SF_inj. rewrite mul_spec, Prim2SF_one.
  pose proof (Prim2SF_valid x) as Hv.
  destruct (Prim2SF x) as [s|s| |s m e]; try reflexivity.
  unfold SF64mul, SFmul. cbn [xorb].
  by apply binary_round_aux_shift_52.
Qed.

Lemma mul_one_r (x : float) : (x * 1)%float = x.
Proof.
  apply Prim2SF_inj. rewrite mul_spec, Prim2SF_one.
  pose proof (Prim2SF_valid x) as Hv.
  destruct (Prim2SF x) as [s|s| |s m e]; try reflexivity.
  - by destruct s.
  - by destruct s.
  - unfold SF64mul, SFmul. rewrite Pos.mul_comm, Z.add_comm, xorb_false_r.
    by apply binary_round_aux_shift_52.
Qed.

Lemma mul_zero_l (y : float) : isFinite y = true -> is_zero_number (0 * y)%float.
Proof.
  intros H. unfold is_zero_number. rewrite mul_spec.
  change (Prim2SF 0) with (S754_zero false).
  destruct (isFinite_Prim2SF y H) as [[s ->]|(s & m & e & ->)]; by eexists.
Qed.

Lemma mul_zero_r (y : float) : isFinite y = true -> is_zero_number (y * 0)%float.
Proof.
  intros H. unfold is_zero_number. rewrite mul_spec.
  change (Prim2SF 0) with (S754_zero false).
  destruct (isFinite_Prim2SF y H) as [[s ->]|(s & m & e & ->)]; by eexists.
Qed.

Lemma add_zero_numbers (z1 z2 : float) :
  is_zero_number z1 -> is_zero_number z2 -> is_zero_number (z1 + z2)%float.
Proof.
  intros [s1 H1] [s2 H2]. unfold is_zero_number.
  rewrite add_spec, H1, H2. destruct s1, s2; by eexists.
Qed.

Lemma same_number_refl (x : float) : same_number x x.
Proof. by left. Qed.

Lemma add_zero_number_l (z a x : float) :
  is_zero_number z -> same_number a x -> same_number (z + a) x.
Proof.
  intros Hz [->|[Ha Hx]]; [|right; split; [by apply add_zero_numbers|done]].
  destruct Hz as [s Hz].
  destruct (Prim2SF x) as [sx|sx| |sx m e] eqn:Hx.
  - right. split; [|by eexists].
    apply add_zero_numbers; by eexists.
  - left. apply Prim2SF_inj. by rewrite add_spec, Hz, Hx.
  - left. apply Prim2SF_inj. by rewrite add_spec, Hz, Hx.
  - left. apply Prim2SF_inj. by rewrite add_spec, Hz, Hx.
Qed.

Lemma add_zero_number_r (a z x : float) :
  same_number a x -> is_zero_number z -> same_number (a + z) x.
Proof.
  intros [->|[Ha Hx]] Hz; [|right; split; [by apply add_zero_numbers|done]].
  destruct Hz as [s Hz].
  destruct (Prim2SF x) as [sx|sx| |sx m e] eqn:Hx.
  - right. split; [|by eexists].
    apply add_zero_numbers; by eexists.
  - left. apply Prim2SF_inj. by rewrite add_spec, Hz, Hx.
  - left. apply Prim2SF_inj. by rewrite add_spec, Hz, Hx.
  - left. apply Prim2SF_inj. by rewrite add_spec, Hz, Hx.
Qed.

Lemma same_number_strict_eq (a x : float) :
  same_number a x -> isNaN x = false -> strict_eq a x = true.
Proof.
  unfold strict_eq, isNaN, is_nan. intros [->|[[sa Ha] [sx Hx]]] Hn.
  - by apply negb_false_iff in Hn.
  - by rewrite FloatAxioms.eqb_spec, Ha, Hx.
Qed.

Lemma isFinite_not_NaN (x : float) : isFinite x = true -> isNaN x = false.
Proof.
  unfold isFinite, is_finite, isNaN. intros H.
  by apply negb_true_iff, orb_false_iff in H as [Hn _].
Qed.

Create HintDb zero_terms.
#[local] Hint Resolve mul_zero_l mul_zero_r add_zero_numbers same_number_refl
  add_zero_number_l add_zero_number_r : zero_terms.

(** A sum of three products that is one number times one and two finite
    numbers times zero is that number. *)
Ltac one_term_sum :=
  rewrite ?mul_one_l, ?mul_one_r;
  apply same_number_strict_eq;
  [ auto 6 with zero_terms | by apply isFinite_not_NaN ].

(** The identity matrix is neutral for [multiplyMatrices] on matrices with
    finite entries: each entry of the product, on either side, is equal
    to the entry of the matrix. *)
Theorem multiplyMatrices_identity (h : heap) (I M : loc) (m : list float) :
  h !! I = Some (Arr identityMatrix) ->
  h !! M = Some (Arr m) ->
  length m = 9 ->
  Forall (fun x => isFinite x = true) m ->
  exists a b : list float,
    (multiplyMatrices I M h).2 !! (multiplyMatrices I M h).1 = Some (Arr a) /\
    (multiplyMatrices M I h).2 !! (multiplyMatrices M I h).1 = Some (Arr b) /\
    Forall2 (fun u v => strict_eq u v = true) a m /\
    Forall2 (fun u v => strict_eq u v = true) b m.
Proof.
  intros HI HM Hlen Hfin.
  rewrite (multiplyMatrices_matrix_product h I M identityMatrix m HI HM).
  rewrite (multiplyMatrices_matrix_product h M I m identityMatrix HM HI).
  cbn [fst snd]. rewrite !lookup_insert_eq.
  eexists _, _. split; [reflexivity|]. split; [reflexivity|].
  destruct m as [|m0 [|m1 [|m2 [|m3 [|m4 [|m5 [|m6 [|m7 [|m8 [|]]]]]]]]]];
    try discriminate Hlen.
  repeat match goal with
         | H : Forall _ (_ :: _) |- _ => apply Forall_cons_1 in H as [? H]
         end.
  unfold matrix_product, product_entry, sum3, identityMatrix.
  cbn [flat_map map app elem lookup list_lookup default from_option
       Nat.mul Nat.add id].
  split; repeat constructor; one_term_sum.
Qed.

Lemma multiplyMatrices_identity_witness :
  store_moved_shape !! 4 = Some (Arr identityMatrix) /\
  store_moved_shape !! 3 = Some (Arr translate10) /\
  length translate10 = 9 /\
  Forall (fun x => isFinite x = true) translate10 /\
  exists a b : list float,
    (multiplyMatrices 4 3 store_moved_shape).2 !!
      (multiplyMatrices 4 3 store_moved_shape).1 = Some (Arr a) /\
    (multiplyMatrices 3 4 store_moved_shape).2 !!
      (multiplyMatrices 3 4 store_moved_shape).1 = Some (Arr b) /\
    Forall2 (fun u v => strict_eq u v = true) a translate10 /\
    Forall2 (fun u v => strict_eq u v = true) b translate10.
Proof.
  assert (Hfin : Forall (fun x => isFinite x = true) translate10)
    by (repeat constructor).
  split; [reflexivity|]. split; [reflexivity|]. split; [reflexivity|].
  split; [exact Hfin|].
  apply (multiplyMatrices_identity store_moved_shape 4 3 translate10);
    [reflexivity | reflexivity | reflexivity | exact Hfin].
Defined.

(** ** More on [rebuildTransformationMatrix] *)

Lemma set_rotAroundCenter_twice (b : bool) (s : Shape.t) :
  Shape.set_rotAroundCenter b (Shape.set_rotAroundCenter b s) =
  Shape.set_rotAroundCenter b s.
Proof. by destruct s. Qed.

(** On every shape and with any room on the stack,
    [rebuildTransformationMatrix] ends with the stack exhausted, having set
    [rotAroundCenter] to true and written nothing else: [shape.M] is not
    assigned and no array is created.  A second call changes nothing
    more. *)
Theorem rebuildTransformationMatrix_any_shape
    (Math_cos Math_sin : float -> float) (depth1 depth2 : nat)
    (shape : loc) (s : Shape.t) (h : heap) :
  h !! shape = Some (Shp s) ->
  rebuildTransformationMatrix Math_cos Math_sin depth1 shape h =
    (Throw RangeError, <[shape := Shp (Shape.set_rotAroundCenter true s)]> h) /\
  rebuildTransformationMatrix Math_cos Math_sin depth2 shape
      (<[shape := Shp (Shape.set_rotAroundCenter true s)]> h) =
    (Throw RangeError, <[shape := Shp (Shape.set_rotAroundCenter true s)]> h).
Proof.
  intros Hs. split.
  - by apply rebuildTransformationMatrix_exhausts.
  - rewrite (rebuildTransformationMatrix_exhausts _ _ depth2 shape
               (Shape.set_rotAroundCenter true s))
      by apply lookup_insert_eq.
    by rewrite insert_insert_eq, set_rotAroundCenter_twice.
Qed.

Lemma rebuildTransformationMatrix_any_shape_witness :
  store_shape !! 2 = Some (Shp the_shape) /\
  rebuildTransformationMatrix (fun x => x) (fun x => x) 3 2 store_shape =
    (Throw RangeError,
     <[2 := Shp (Shape.set_rotAroundCenter true the_shape)]> store_shape) /\
  rebuildTransformationMatrix (fun x => x) (fun x => x) 7 2
      (<[2 := Shp (Shape.set_rotAroundCenter true the_shape)]> store_shape) =
    (Throw RangeError,
     <[2 := Shp (Shape.set_rotAroundCenter true the_shape)]> store_shape).
Proof.
  split; [reflexivity|].
  apply (rebuildTransformationMatrix_any_shape (fun x => x) (fun x => x) 3 7 2
           the_shape store_shape).
  reflexivity.
Defined.



Lemma multiplyMatrices_step (h : heap) (M1 M2 : loc) (a1 a2 : list float) :
  h !! M1 = Some (Arr a1) ->
  h !! M2 = Some (Arr a2) ->
  exists M3 : loc,
    h !! M3 = None /\
    multiplyMatrices M1 M2 h = (M3, <[M3 := Arr (matrix_product a1 a2)]> h).
Proof.
  intros H1 H2. exists (fresh_loc h). split; [apply fresh_lookup|].
  by apply multiplyMatrices_matrix_product.
Qed.

Lemma lookup_insert_Some_ne (h : heap) (l l' : loc) (o o' : object) :
  h !! l = Some o -> h !! l' = None -> (<[l' := o']> h) !! l = Some o.
Proof.
  intros Hl Hl'. rewrite lookup_insert_ne; [done|]. intros ->. congruence.
Qed.

(** The last statements of [rebuildTransformationMatrix], for a shape
    whose matrix is [m] and three matrices [t], [sc], [r]: [shape.M]
    becomes a new array holding the product of [m], [t], [sc] and [r], in
    that order.  The array that held [m] and every other object but the
    shape are as they were. *)
Theorem rebuildTransformationMatrix_compose_product (h : heap)
    (shape tranMatrix scaleMatrix rotMatrix : loc) (s : Shape.t)
    (m t sc r : list float) :
  h !! shape = Some (Shp s) ->
  h !! Shape.M s = Some (Arr m) ->
  h !! tranMatrix = Some (Arr t) ->
  h !! scaleMatrix = Some (Arr sc) ->
  h !! rotMatrix = Some (Arr r) ->
  exists (newRTM : loc) (h' : heap),
    rebuildTransformationMatrix_compose shape tranMatrix scaleMatrix rotMatrix h =
      (Ok tt, h') /\
    h !! newRTM = None /\
    h' !! shape = Some (Shp (Shape.set_M newRTM s)) /\
    h' !! newRTM =
      Some (Arr (matrix_product (matrix_product (matrix_product m t) sc) r)) /\
    (forall l o, h !! l = Some o -> l <> shape -> h' !! l = Some o).
Proof.
  intros Hs Hm Ht Hsc Hr.
  unfold rebuildTransformationMatrix_compose.
  unfold bind at 1. unfold getField. rewrite Hs.
  destruct (multiplyMatrices_step h (Shape.M s) tranMatrix m t Hm Ht)
    as (l1 & Hl1 & E1).
  unfold bind at 1. unfold lift at 1. rewrite E1.
  set (h1 := <[l1 := Arr (matrix_product m t)]> h).
  destruct (multiplyMatrices_step h1 l1 scaleMatrix (matrix_product m t) sc)
    as (l2 & Hl2 & E2).
  { apply lookup_insert_eq. }
  { by apply lookup_insert_Some_ne. }
  unfold bind at 1. unfold lift at 1. rewrite E2.
  set (h2 := <[l2 := Arr (matrix_product (matrix_product m t) sc)]> h1).
  destruct (multiplyMatrices_step h2 l2 rotMatrix
              (matrix_product (matrix_product m t) sc) r)
    as (l3 & Hl3 & E3).
  { apply lookup_insert_eq. }
  { apply lookup_insert_Some_ne; [|done]. by apply lookup_insert_Some_ne. }
  unfold bind at 1. unfold lift at 1. rewrite E3.
  set (h3 := <[l3 := Arr (matrix_product (matrix_product (matrix_product m t) sc) r)]> h2).
  assert (Hkeep : forall l o, h !! l = Some o -> h3 !! l = Some o).
  { intros l o Hl. repeat apply lookup_insert_Some_ne; done. }
  assert (Hl3h : h !! l3 = None).
  { destruct (h !! l3) as [o|] eqn:E; [|done].
    assert (h2 !! l3 = Some o) by (repeat apply lookup_insert_Some_ne; done).
    congruence. }
  unfold setField. rewrite (Hkeep shape _ Hs).
  exists l3, (<[shape := Shp (Shape.set_M l3 s)]> h3).
  split; [reflexivity|]. split; [exact Hl3h|].
  split; [apply lookup_insert_eq|]. split.
  - rewrite lookup_insert_ne by (intros ->; congruence).
    subst h3. apply lookup_insert_eq.
  - intros l o Hl Hne. rewrite lookup_insert_ne by done. by apply Hkeep.
Qed.

Lemma rebuildTransformationMatrix_compose_product_witness :
  store_moved_shape !! 2 = Some (Shp moved_shape) /\
  store_moved_shape !! Shape.M moved_shape = Some (Arr translate10) /\
  store_moved_shape !! 3 = Some (Arr translate10) /\
  store_moved_shape !! 4 = Some (Arr identityMatrix) /\
  store_moved_shape !! 5 = Some (Arr identityMatrix) /\
  exists (newRTM : loc) (h' : heap),
    rebuildTransformationMatrix_compose 2 3 4 5 store_moved_shape = (Ok tt, h') /\
    store_moved_shape !! newRTM = None /\
    h' !! 2 = Some (Shp (Shape.set_M newRTM moved_shape)) /\
    h' !! newRTM =
      Some (Arr (matrix_product
                   (matrix_product (matrix_product translate10 translate10)
                                   identityMatrix)
                   identityMatrix)) /\
    (forall l o, store_moved_shape !! l = Some o -> l <> 2 -> h' !! l = Some o).
Proof.
  do 5 (split; [reflexivity|]).
  apply (rebuildTransformationMatrix_compose_product store_moved_shape 2 3 4 5
           moved_shape translate10 translate10 identityMatrix identityMatrix);
    reflexivity.
Defined.

(** ** More on [orthoMatrix] *)

Lemma Prim2SF_not_finite (y : float) :
  Prim2SF y = S754_nan \/ (exists s, Prim2SF y = S754_infinity s) ->
  isFinite y = false.
Proof.
  unfold isFinite, is_finite, is_nan, is_infinity.
  rewrite !FloatAxioms.eqb_spec, abs_spec.
  intros [->|[s ->]]; [reflexivity|]. by destruct s.
Qed.

(** A quotient by a zero is not finite. *)
Lemma div_zero_not_finite (x z : float) :
  is_zero_number z -> isFinite (x / z) = false.
Proof.
  intros [s Hz]. apply Prim2SF_not_finite. rewrite div_spec, Hz.
  destruct (Prim2SF x) as [sx|sx| |sx m e]; cbn; eauto.
Qed.

Lemma is_zero_number_zero : is_zero_number 0.
Proof. by exists false. Qed.

(** A view volume of no width or of no height: for finite [l],
    [orthoMatrix(b, t, l, l)] has [A1 = Infinity] and an [A2] that is not
    finite; for finite [b], [orthoMatrix(b, b, l, r)] has [B1 = Infinity]
    and a [B2] that is not finite.  The function does not throw. *)
Theorem orthoMatrix_degenerate (b l : float) :
  isFinite l = true ->
  isFinite b = true ->
  (forall b' t' n f h,
     rd (orthoMatrix b' t' l l n f h).2 (orthoMatrix b' t' l l n f h).1 0 = Infinity /\
     isFinite (rd (orthoMatrix b' t' l l n f h).2 (orthoMatrix b' t' l l n f h).1 12)
       = false) /\
  (forall l' r' n f h,
     rd (orthoMatrix b b l' r' n f h).2 (orthoMatrix b b l' r' n f h).1 5 = Infinity /\
     isFinite (rd (orthoMatrix b b l' r' n f h).2 (orthoMatrix b b l' r' n f h).1 13)
       = false).
Proof.
  intros Hl Hb. split; intros; unfold orthoMatrix; rewrite alloc_eq;
    cbv zeta; cbn [fst snd]; unfold rd; rewrite lookup_insert_eq;
    unfold elem; cbn [lookup list_lookup default from_option id].
  - rewrite (sub_diag_finite l Hl). split; [reflexivity|].
    apply div_zero_not_finite, is_zero_number_zero.
  - rewrite (sub_diag_finite b Hb). split; [reflexivity|].
    apply div_zero_not_finite, is_zero_number_zero.
Qed.

Lemma orthoMatrix_degenerate_witness :
  isFinite 3 = true /\
  isFinite 7 = true /\
  (forall b' t' n f h,
     rd (orthoMatrix b' t' 3 3 n f h).2 (orthoMatrix b' t' 3 3 n f h).1 0 = Infinity /\
     isFinite (rd (orthoMatrix b' t' 3 3 n f h).2 (orthoMatrix b' t' 3 3 n f h).1 12)
       = false) /\
  (forall l' r' n f h,
     rd (orthoMatrix 7 7 l' r' n f h).2 (orthoMatrix 7 7 l' r' n f h).1 5 = Infinity /\
     isFinite (rd (orthoMatrix 7 7 l' r' n f h).2 (orthoMatrix 7 7 l' r' n f h).1 13)
       = false).
Proof.
  split; [reflexivity|]. split; [reflexivity|].
  apply (orthoMatrix_degenerate 7 3); reflexivity.
Defined.

(** ** More on the render loop *)

Lemma renderShape_calls (projM : loc) (shape : Shape.t) (index : nat) :
  renderShape projM shape index = shape_calls projM shape.
Proof.
  unfold renderShape, shape_calls.
  destruct shape as [? ? ? ? ? ? ? type filled ? ?];
    cbn [Shape.type Shape.filled Shape.buffer Shape.color].
  by destruct type, filled.
Qed.

Lemma forEach_flat_map {A} (f : A -> nat -> list call) (g : A -> list call)
    (a : list A) :
  (forall elem index, f elem index = g elem) ->
  forEach f a = flat_map g a.
Proof.
  unfold forEach. revert f. induction a as [|x a IH]; intros f Hf.
  - reflexivity.
  - cbn [imap concat flat_map]. rewrite Hf. f_equal.
    apply (IH (fun elem index => f elem (S index))). intros. apply Hf.
Qed.

Lemma length_flat_map_shape_calls (projM : loc) (scene : list Shape.t) :
  length (flat_map (shape_calls projM) scene) = 4 * length scene.
Proof.
  induction scene as [|shape scene IH]; [reflexivity|].
  cbn [flat_map]. rewrite length_app, IH. cbn [shape_calls length]. lia.
Qed.

(** [renderScene] clears the screen and selects the shader once, then,
    for each shape in the order of the scene, passes the shape's colour,
    uploads the projection matrix, binds the shape's vertex buffer and
    makes the shape's draw call: four calls per shape, whatever its type
    and fill state. *)
Theorem renderScene_calls (projM : loc) (scene : list Shape.t) :
  renderScene projM scene =
    [ gl_clear; shader_use ] ++ flat_map (shape_calls projM) scene /\
  length (renderScene projM scene) = 2 + 4 * length scene.
Proof.
  assert (E : renderScene projM scene =
              [ gl_clear; shader_use ] ++ flat_map (shape_calls projM) scene).
  { unfold renderScene. f_equal. apply forEach_flat_map.
    apply renderShape_calls. }
  split; [exact E|]. rewrite E. cbn [app length].
  rewrite length_flat_map_shape_calls. lia.
Qed.

(** ** The frame callback *)

Section FrameCallbackFacts.

Variable resizeCanvasToDisplaySize : GL.t -> bool * GL.t.
Variable DEV : bool.

Lemma resizeCanvas_not_resized (g : Globals.t) (h : heap) (gl : GL.t) :
  resizeCanvasToDisplaySize (Globals.gl g) = (false, gl) ->
  resizeCanvas resizeCanvasToDisplaySize DEV g h =
    (false, Globals.set_gl gl g, h, []).
Proof. intros E. unfold resizeCanvas. by rewrite E. Qed.

Lemma resizeCanvas_resized (g : Globals.t) (h : heap) (gl : GL.t) :
  resizeCanvasToDisplaySize (Globals.gl g) = (true, gl) ->
  resizeCanvas resizeCanvasToDisplaySize DEV g h =
    (true,
     Globals.set_projM (fresh_loc h) (Globals.set_gl gl g),
     <[fresh_loc h :=
         Arr (canvas_projection (GL.canvas_width gl) (GL.canvas_height gl))]> h,
     [ gl_viewport 0 0 (GL.canvas_width gl) (GL.canvas_height gl) ] ++
     (if DEV
      then [ console_info_Canvas (GL.canvas_width gl) (GL.canvas_height gl);
             console_info_Buffer (GL.drawingBufferWidth gl)
                                 (GL.drawingBufferHeight gl) ]
      else [])).
Proof. intros E. unfold resizeCanvas. by rewrite E. Qed.

End FrameCallbackFacts.

Lemma checkRender_eq_not_resized
    (resizeCanvasToDisplaySize : GL.t -> bool * GL.t) (DEV : bool)
    (g : Globals.t) (h : heap) (gl : GL.t) :
  resizeCanvasToDisplaySize (Globals.gl g) = (false, gl) ->
  checkRender resizeCanvasToDisplaySize DEV g h =
    (Globals.mk gl (Globals.projM g) (Globals.scene g) (Globals.stats g) false,
     h,
     (if Globals.stats g then [ stats_begin ] else []) ++
     (if Globals.updateRequested g
      then map render_call (renderScene (Globals.projM g) (Globals.scene g))
      else []) ++
     (if Globals.stats g then [ stats_end ] else []) ++
     [ requestAnimationFrame_checkRender ]).
Proof.
  intros E. unfold checkRender.
  rewrite (resizeCanvas_not_resized _ DEV g h gl E).
  destruct g as [gl0 projM scene stats upd]. cbn.
  by destruct upd.
Qed.

Lemma checkRender_eq_resized
    (resizeCanvasToDisplaySize : GL.t -> bool * GL.t) (DEV : bool)
    (g : Globals.t) (h : heap) (gl : GL.t) :
  resizeCanvasToDisplaySize (Globals.gl g) = (true, gl) ->
    checkRender resizeCanvasToDisplaySize DEV g h =
      (Globals.mk gl (fresh_loc h) (Globals.scene g) (Globals.stats g) false,
       <[fresh_loc h := Arr (canvas_projection (GL.canvas_width gl) (GL.canvas_height gl))]> h,
       (if Globals.stats g then [ stats_begin ] else []) ++
       [ gl_viewport 0 0 (GL.canvas_width gl) (GL.canvas_height gl) ] ++
       (if DEV
        then [ console_info_Canvas (GL.canvas_width gl) (GL.canvas_height gl);
               console_info_Buffer (GL.drawingBufferWidth gl)
                                   (GL.drawingBufferHeight gl) ]
        else []) ++
       map render_call (renderScene (fresh_loc h) (Globals.scene g)) ++
       (if Globals.stats g then [ stats_end ] else []) ++
       [ requestAnimationFrame_checkRender ]).
Proof.
  intros E.
  unfold checkRender.
  rewrite (resizeCanvas_resized _ DEV g h gl E).
  destruct g as [gl0 projM scene stats upd].
  cbn [Globals.stats Globals.updateRequested Globals.projM Globals.scene
       Globals.gl Globals.set_projM Globals.set_gl Globals.set_updateRequested
       orb].
  by destruct stats, DEV.
Qed.

(** When the canvas was not resized, a frame leaves the store and the
    projection matrix as they were; it renders the scene, with that
    projection matrix, exactly when an update was requested, and the
    request is then cleared. *)
Theorem checkRender_not_resized
    (resizeCanvasToDisplaySize : GL.t -> bool * GL.t) (DEV : bool)
    (g : Globals.t) (h : heap) (gl : GL.t) :
  resizeCanvasToDisplaySize (Globals.gl g) = (false, gl) ->
  checkRender resizeCanvasToDisplaySize DEV g h =
    (Globals.mk gl (Globals.projM g) (Globals.scene g) (Globals.stats g) false,
     h,
     (if Globals.stats g then [ stats_begin ] else []) ++
     (if Globals.updateRequested g
      then map render_call (renderScene (Globals.projM g) (Globals.scene g))
      else []) ++
     (if Globals.stats g then [ stats_end ] else []) ++
     [ requestAnimationFrame_checkRender ]).
Proof.
  intros E. unfold checkRender, resizeCanvas. rewrite E.
  destruct g as [gl0 projM scene stats upd].
  cbn [Globals.stats Globals.updateRequested Globals.projM Globals.scene
       Globals.gl Globals.set_gl Globals.set_updateRequested orb].
  by destruct upd.
Qed.

Lemma checkRender_not_resized_witness :
  (fun gl : GL.t => (false, gl)) (Globals.gl the_globals) = (false, gl_640) /\
  checkRender (fun gl => (false, gl)) true the_globals store_shape =
    (Globals.mk gl_640 (Globals.projM the_globals) (Globals.scene the_globals)
                (Globals.stats the_globals) false,
     store_shape,
     (if Globals.stats the_globals then [ stats_begin ] else []) ++
     (if Globals.updateRequested the_globals
      then map render_call
               (renderScene (Globals.projM the_globals) (Globals.scene the_globals))
      else []) ++
     (if Globals.stats the_globals then [ stats_end ] else []) ++
     [ requestAnimationFrame_checkRender ]).
Proof.
  split; [reflexivity|].
  apply (checkRender_not_resized (fun gl => (false, gl)) true the_globals
           store_shape gl_640).
  reflexivity.
Defined.

(** When the canvas was resized, a frame stores a new projection matrix,
    built for the new size of the canvas, and renders the scene with it
    in the same frame, whether or not an update was requested; the objects
    the store had are as they were. *)
Theorem checkRender_resized
    (resizeCanvasToDisplaySize : GL.t -> bool * GL.t) (DEV : bool)
    (g : Globals.t) (h : heap) (gl : GL.t) :
  resizeCanvasToDisplaySize (Globals.gl g) = (true, gl) ->
  exists M : loc,
    h !! M = None /\
    checkRender resizeCanvasToDisplaySize DEV g h =
      (Globals.mk gl M (Globals.scene g) (Globals.stats g) false,
       <[M := Arr (canvas_projection (GL.canvas_width gl) (GL.canvas_height gl))]> h,
       (if Globals.stats g then [ stats_begin ] else []) ++
       [ gl_viewport 0 0 (GL.canvas_width gl) (GL.canvas_height gl) ] ++
       (if DEV
        then [ console_info_Canvas (GL.canvas_width gl) (GL.canvas_height gl);
               console_info_Buffer (GL.drawingBufferWidth gl)
                                   (GL.drawingBufferHeight gl) ]
        else []) ++
       map render_call (renderScene M (Globals.scene g)) ++
       (if Globals.stats g then [ stats_end ] else []) ++
       [ requestAnimationFrame_checkRender ]).
Proof.
  intros E. exists (fresh_loc h). split; [apply fresh_lookup|].
  by apply checkRender_eq_resized.
Qed.

Lemma checkRender_resized_witness :
  (fun _ : GL.t => (true, gl_800)) (Globals.gl the_globals) = (true, gl_800) /\
  exists M : loc,
    store_shape !! M = None /\
    checkRender (fun _ => (true, gl_800)) false the_globals store_shape =
      (Globals.mk gl_800 M (Globals.scene the_globals)
                  (Globals.stats the_globals) false,
       <[M := Arr (canvas_projection (GL.canvas_width gl_800)
                                     (GL.canvas_height gl_800))]> store_shape,
       (if Globals.stats the_globals then [ stats_begin ] else []) ++
       [ gl_viewport 0 0 (GL.canvas_width gl_800) (GL.canvas_height gl_800) ] ++
       (if false
        then [ console_info_Canvas (GL.canvas_width gl_800) (GL.canvas_height gl_800);
               console_info_Buffer (GL.drawingBufferWidth gl_800)
                                   (GL.drawingBufferHeight gl_800) ]
        else []) ++
       map render_call (renderScene M (Globals.scene the_globals)) ++
       (if Globals.stats the_globals then [ stats_end ] else []) ++
       [ requestAnimationFrame_checkRender ]).
Proof.
  split; [reflexivity|].
  apply (checkRender_resized (fun _ => (true, gl_800)) false the_globals
           store_shape gl_800).
  reflexivity.
Defined.

Lemma filter_is_request_render (cs : list call) :
  List.filter is_request (map render_call cs) = [].
Proof. induction cs as [|c cs IH]; [reflexivity|]. exact IH. Qed.

Lemma checkRender_updateRequested
    (resizeCanvasToDisplaySize : GL.t -> bool * GL.t) (DEV : bool)
    (g : Globals.t) (h : heap) :
  Globals.updateRequested (checkRender resizeCanvasToDisplaySize DEV g h).1.1 =
    false.
Proof.
  destruct (resizeCanvasToDisplaySize (Globals.gl g)) as [[|] gl] eqn:E.
  - by rewrite (checkRender_eq_resized _ DEV g h gl E).
  - by rewrite (checkRender_eq_not_resized _ DEV g h gl E).
Qed.

(** Every frame, whatever the canvas and the request: asks for the next
    frame once, as its last call; leaves no update requested; leaves the
    scene as it was; and leaves every object of the store as it was. *)
Theorem checkRender_always
    (resizeCanvasToDisplaySize : GL.t -> bool * GL.t) (DEV : bool)
    (g : Globals.t) (h : heap) :
  let '(g', h', calls) := checkRender resizeCanvasToDisplaySize DEV g h in
  List.filter is_request calls = [ requestAnimationFrame_checkRender ] /\
  last calls = Some requestAnimationFrame_checkRender /\
  Globals.updateRequested g' = false /\
  Globals.scene g' = Globals.scene g /\
  (forall l o, h !! l = Some o -> h' !! l = Some o).
Proof.
  destruct (resizeCanvasToDisplaySize (Globals.gl g)) as [[|] gl] eqn:E.
  - rewrite (checkRender_eq_resized _ DEV g h gl E).
    repeat split.
    + rewrite !List.filter_app, filter_is_request_render.
      by destruct (Globals.stats g), DEV.
    + rewrite !app_assoc. apply last_snoc.
    + intros l o Hl. apply lookup_insert_Some_ne; [done|apply fresh_lookup].
  - rewrite (checkRender_eq_not_resized _ DEV g h gl E).
    repeat split.
    + rewrite !List.filter_app.
      destruct (Globals.updateRequested g);
        rewrite ?filter_is_request_render; by destruct (Globals.stats g).
    + rewrite !app_assoc. apply last_snoc.
    + done.
Qed.

(** A canvas that becomes one pixel wide: [resizeCanvas] stores a
    projection matrix whose entry 0 is [Infinity] and whose entry 12 is
    [NaN], and does not throw. *)
Theorem resizeCanvas_one_pixel_wide
    (resizeCanvasToDisplaySize : GL.t -> bool * GL.t) (DEV : bool)
    (g : Globals.t) (h : heap) (gl : GL.t) :
  resizeCanvasToDisplaySize (Globals.gl g) = (true, gl) ->
  GL.canvas_width gl = 1%float ->
  let '(resized, g', h', calls) :=
    resizeCanvas resizeCanvasToDisplaySize DEV g h in
  resized = true /\
  rd h' (Globals.projM g') 0 = Infinity /\
  isNaN (rd h' (Globals.projM g') 12) = true.
Proof.
  intros E Hw. rewrite (resizeCanvas_resized _ DEV g h gl E).
  cbn [Globals.projM Globals.set_projM]. split; [reflexivity|].
  unfold rd. rewrite lookup_insert_eq, Hw. by split.
Qed.

Lemma resizeCanvas_one_pixel_wide_witness :
  (fun _ : GL.t => (true, GL.mk 1 480 1 480)) (Globals.gl the_globals) =
    (true, GL.mk 1 480 1 480) /\
  GL.canvas_width (GL.mk 1 480 1 480) = 1%float /\
  let '(resized, g', h', calls) :=
    resizeCanvas (fun _ => (true, GL.mk 1 480 1 480)) true the_globals store_shape in
  resized = true /\
  rd h' (Globals.projM g') 0 = Infinity /\
  isNaN (rd h' (Globals.projM g') 12) = true.
Proof.
  split; [reflexivity|]. split; [reflexivity|].
  apply (resizeCanvas_one_pixel_wide (fun _ => (true, GL.mk 1 480 1 480)) true
           the_globals store_shape (GL.mk 1 480 1 480)); reflexivity.
Defined.

(** ** [makeIdentityMatrix] *)

(** Each call of [makeIdentityMatrix] returns an array of its own holding
    the identity: after two calls the two arrays are different objects,
    the objects the store had are as they were, and an assignment into
    the first array leaves the second holding the identity. *)
Theorem makeIdentityMatrix_fresh (h : heap) :
  let '(A, h1) := makeIdentityMatrix h in
  let '(B, h2) := makeIdentityMatrix h1 in
  h !! A = None /\
  h1 !! A = Some (Arr identityMatrix) /\
  h1 !! B = None /\
  h2 !! A = Some (Arr identityMatrix) /\
  h2 !! B = Some (Arr identityMatrix) /\
  (forall l o, h !! l = Some o -> h2 !! l = Some o) /\
  (forall i v, assign A i (fun _ => v) h2 !! B = Some (Arr identityMatrix)).
Proof.
  unfold makeIdentityMatrix. rewrite !alloc_eq.
  pose proof (fresh_lookup h) as HA.
  generalize dependent (fresh_loc h). intros A HA.
  set (h1 := <[A := Arr _]> h).
  pose proof (fresh_lookup h1) as HB.
  generalize dependent (fresh_loc h1). intros B HB.
  assert (HA1 : h1 !! A = Some (Arr identityMatrix)) by apply lookup_insert_eq.
  assert (Hne : A <> B) by (intros ->; congruence).
  repeat split; try done.
  - by apply lookup_insert_Some_ne.
  - apply lookup_insert_eq.
  - intros l o Hl. by repeat apply lookup_insert_Some_ne.
  - intros i v. unfold assign, wr.
    rewrite (lookup_insert_Some_ne h1 A B _ _ HA1 HB).
    rewrite lookup_insert_ne by done. apply lookup_insert_eq.
Qed.

(** ** The bottom row of a product *)

Lemma mul_zero_number_l (z y : float) :
  is_zero_number z -> isFinite y = true -> is_zero_number (z * y)%float.
Proof.
  intros [sz Hz] H. unfold is_zero_number. rewrite mul_spec, Hz.
  destruct (isFinite_Prim2SF y H) as [[s ->]|(s & m & e & ->)]; by eexists.
Qed.

Lemma is_zero_number_strict_eq (z : float) :
  is_zero_number z -> strict_eq z 0 = true.
Proof.
  intros [s Hz]. unfold strict_eq. by rewrite FloatAxioms.eqb_spec, Hz.
Qed.

Lemma add_zero_number_one (z : float) :
  is_zero_number z -> (z + 1)%float = 1%float.
Proof.
  intros [s Hz]. apply Prim2SF_inj. by rewrite add_spec, Hz, Prim2SF_one.
Qed.

(** The product of two matrices whose bottom row is (0, 0, 1), the second
    with finite entries, has the bottom row (0, 0, 1): [multiplyMatrices]
    keeps matrices affine. *)
Theorem multiplyMatrices_bottom_row (h : heap) (M1 M2 : loc)
    (a1 a2 : list float) :
  h !! M1 = Some (Arr a1) ->
  h !! M2 = Some (Arr a2) ->
  strict_eq (elem a1 2) 0 = true ->
  strict_eq (elem a1 5) 0 = true ->
  elem a1 8 = 1%float ->
  strict_eq (elem a2 2) 0 = true ->
  strict_eq (elem a2 5) 0 = true ->
  elem a2 8 = 1%float ->
  (forall i, i < 9 -> isFinite (elem a2 i) = true) ->
  exists a3 : list float,
    (multiplyMatrices M1 M2 h).2 !! (multiplyMatrices M1 M2 h).1 = Some (Arr a3) /\
    length a3 = 9 /\
    strict_eq (elem a3 2) 0 = true /\
    strict_eq (elem a3 5) 0 = true /\
    elem a3 8 = 1%float.
Proof.
  intros H1 H2 Z12%strict_eq_zero_inv Z15%strict_eq_zero_inv E18
         Z22%strict_eq_zero_inv Z25%strict_eq_zero_inv E28 Hfin.
  rewrite (multiplyMatrices_matrix_product h M1 M2 a1 a2 H1 H2).
  cbn [fst snd]. rewrite lookup_insert_eq.
  eexists. split; [reflexivity|]. split; [reflexivity|].
  unfold matrix_product. cbn [flat_map map app].
  unfold elem. cbn [lookup list_lookup default from_option id].
  unfold product_entry, sum3. cbn [Nat.mul Nat.add].
  rewrite E18, E28, !mul_one_l.
  repeat split.
  - apply is_zero_number_strict_eq.
    repeat apply add_zero_numbers; try done;
      apply mul_zero_number_l; try done; apply Hfin; lia.
  - apply is_zero_number_strict_eq.
    repeat apply add_zero_numbers; try done;
      apply mul_zero_number_l; try done; apply Hfin; lia.
  - apply add_zero_number_one.
    apply add_zero_numbers; apply mul_zero_number_l; try done; apply Hfin; lia.
Qed.

Lemma multiplyMatrices_bottom_row_witness :
  store_two_matrices !! 1 = Some (Arr scale2) /\
  store_two_matrices !! 2 = Some (Arr translate10) /\
  strict_eq (elem scale2 2) 0 = true /\
  strict_eq (elem scale2 5) 0 = true /\
  elem scale2 8 = 1%float /\
  strict_eq (elem translate10 2) 0 = true /\
  strict_eq (elem translate10 5) 0 = true /\
  elem translate10 8 = 1%float /\
  (forall i, i < 9 -> isFinite (elem translate10 i) = true) /\
  exists a3 : list float,
    (multiplyMatrices 1 2 store_two_matrices).2 !!
      (multiplyMatrices 1 2 store_two_matrices).1 = Some (Arr a3) /\
    length a3 = 9 /\
    strict_eq (elem a3 2) 0 = true /\
    strict_eq (elem a3 5) 0 = true /\
    elem a3 8 = 1%float.
Proof.
  assert (Hfin : forall i, i < 9 -> isFinite (elem translate10 i) = true).
  { intros i Hi. do 9 (destruct i as [|i]; [reflexivity|]). lia. }
  do 8 (split; [reflexivity|]). split; [exact Hfin|].
  apply (multiplyMatrices_bottom_row store_two_matrices 1 2 scale2 translate10);
    try reflexivity. exact Hfin.
Defined.

(** ** Two frames *)

(** A frame that follows another and finds the canvas not resized makes
    no render call and leaves the store as the first frame left it: an
    update is rendered once. *)
Theorem checkRender_twice
    (resize1 resize2 : GL.t -> bool * GL.t) (DEV : bool)
    (g : Globals.t) (h : heap) (gl : GL.t) :
  resize2 (Globals.gl (checkRender resize1 DEV g h).1.1) = (false, gl) ->
  let '(g1, h1, calls1) := checkRender resize1 DEV g h in
  let '(g2, h2, calls2) := checkRender resize2 DEV g1 h1 in
  List.filter is_render_call calls2 = [] /\
  h2 = h1 /\
  Globals.projM g2 = Globals.projM g1.
Proof.
  intros E.
  pose proof (checkRender_updateRequested resize1 DEV g h) as Hupd.
  destruct (checkRender resize1 DEV g h) as [[g1 h1] calls1].
  cbn [fst] in E, Hupd.
  rewrite (checkRender_eq_not_resized resize2 DEV g1 h1 gl E), Hupd.
  repeat split. by destruct (Globals.stats g1).
Qed.

Lemma checkRender_twice_witness :
  (fun gl : GL.t => (false, gl))
    (Globals.gl (checkRender (fun _ => (true, gl_800)) true the_globals store_shape).1.1)
    = (false, gl_800) /\
  let '(g1, h1, calls1) :=
    checkRender (fun _ => (true, gl_800)) true the_globals store_shape in
  let '(g2, h2, calls2) := checkRender (fun gl => (false, gl)) true g1 h1 in
  List.filter is_render_call calls2 = [] /\
  h2 = h1 /\
  Globals.projM g2 = Globals.projM g1.
Proof.
  split; [reflexivity|].
  apply (checkRender_twice (fun _ => (true, gl_800)) (fun gl => (false, gl)) true
           the_globals store_shape gl_800).
  reflexivity.
Defined.
